(** * FindPeople scraper: a shallow embedding of [find.py]

    The program queries a directory web form by name, extracts contact
    records from the HTML result table and prints them.  This file embeds
    its functions ([do_request], the four [parse_record_*] extractors,
    [parse_emails], [err], [contact_to_str] and [main]) and proves the
    properties stated about them.

    Modelling conventions:
    - A Python [str] is held as the bytes of its UTF-8 encoding, in a
      [string].  The whitespace class of [str.split()] and [str.strip()]
      is the Unicode one, [str.isspace]: its 29 characters are listed by
      their encodings, and a [str] is read character by character.
    - Exceptions are values of [exn]; a computation that can raise returns
      a [result].
    - The document tree built by BeautifulSoup is an inductive [node]; the
      HTML parser itself, the markup printer and the HTTP server are
      parameters of the model.
    - The values of [time.time()] are floats.  Their type, the conversion
      of [args.ratelimit] to it (which raises [OverflowError] on an
      integer out of range), their sum and difference, the test [> 0] and
      the arguments on which [time.sleep] raises [OverflowError] are
      parameters of the model: nothing is assumed about rounding.  The
      sample runs take them from the binary64 floats of the kernel.
    - Reading [--file] and iterating over [--batch] can raise (a decoding
      error, an I/O error); the command line holds what they give. *)

From Stdlib Require Import String Ascii List Bool Arith ZArith Lia.
From Stdlib Require Import DecimalString.
From Stdlib Require PrimFloat FloatOps SpecFloat.
Import ListNotations.

Local Open Scope nat_scope.
Local Open Scope list_scope.
Local Open Scope string_scope.

(* ================================================================== *)
(** ** Exceptions and fallible computations *)

Inductive exn : Type :=
| InvalidRequest (msg : string)
| RequestFailure (msg : string)
| AttributeError
| TypeError
| IndexError
| ValueError
| ConnectionError
| OverflowError
| UnicodeDecodeError
| OSError.

Inductive result (A : Type) : Type :=
| Ok (a : A)
| Raise (e : exn).

Arguments Ok {A} a.
Arguments Raise {A} e.

Definition rbind {A B : Type} (r : result A) (k : A -> result B) : result B :=
  match r with
  | Ok a => k a
  | Raise e => Raise e
  end.

Declare Scope result_scope.
Delimit Scope result_scope with result.
Notation "x <- r ;; k" := (rbind r (fun x => k))
  (at level 61, r at next level, right associativity) : result_scope.

(* ================================================================== *)
(** ** The [str] methods the program calls *)

Module PyStr.

Definition is_empty (s : string) : bool :=
  match s with
  | EmptyString => true
  | String _ _ => false
  end.

Fixpoint drop (n : nat) (s : string) : string :=
  match n, s with
  | O, _ => s
  | S _, EmptyString => EmptyString
  | S n', String _ s' => drop n' s'
  end.

(** The UTF-8 encodings of one, two and three bytes. *)
Definition utf8_1 (a : nat) : string := String (ascii_of_nat a) "".
Definition utf8_2 (a b : nat) : string :=
  String (ascii_of_nat a) (String (ascii_of_nat b) "").
Definition utf8_3 (a b c : nat) : string :=
  String (ascii_of_nat a) (String (ascii_of_nat b) (String (ascii_of_nat c) "")).

(** The characters [c] with [c.isspace()], which [split()] and [strip()]
    take for whitespace: U+0009 to U+000D, U+001C to U+0020, U+0085,
    U+00A0, U+1680, U+2000 to U+200A, U+2028, U+2029, U+202F, U+205F and
    U+3000. *)
Definition whitespace : list string :=
  [ utf8_1 9; utf8_1 10; utf8_1 11; utf8_1 12; utf8_1 13;
    utf8_1 28; utf8_1 29; utf8_1 30; utf8_1 31; utf8_1 32;
    utf8_2 194 133; utf8_2 194 160;
    utf8_3 225 154 128;
    utf8_3 226 128 128; utf8_3 226 128 129; utf8_3 226 128 130;
    utf8_3 226 128 131; utf8_3 226 128 132; utf8_3 226 128 133;
    utf8_3 226 128 134; utf8_3 226 128 135; utf8_3 226 128 136;
    utf8_3 226 128 137; utf8_3 226 128 138;
    utf8_3 226 128 168; utf8_3 226 128 169; utf8_3 226 128 175;
    utf8_3 226 129 159;
    utf8_3 227 128 128 ].

(** The whitespace character [s] starts with, if any. *)
Definition ws_prefix (s : string) : option string :=
  List.find (fun w => String.prefix w s) whitespace.

(** [c.isspace()] for a character [c] *)
Definition is_space (c : string) : bool := existsb (String.eqb c) whitespace.

(** The characters of [s], as far as whitespace goes: each whitespace
    character is one item, and so is every other byte. *)
Fixpoint chars (s : string) : list string :=
  match s with
  | EmptyString => []
  | String a s1 =>
      match ws_prefix s with
      | None => String a "" :: chars s1
      | Some w =>
          match String.length w, s1 with
          | 1, _ => w :: chars s1
          | 2, String _ s2 => w :: chars s2
          | 3, String _ (String _ s3) => w :: chars s3
          | _, _ => [w]
          end
      end
  end.

Fixpoint flatten (items : list string) : string :=
  match items with
  | [] => ""
  | c :: rest => c ++ flatten rest
  end.

(** [s.lstrip()], [s.rstrip()] and [s.strip()] with no argument *)
Fixpoint lstrip_chars (items : list string) : list string :=
  match items with
  | [] => []
  | c :: rest => if is_space c then lstrip_chars rest else items
  end.

Fixpoint rstrip_chars (items : list string) : list string :=
  match items with
  | [] => []
  | c :: rest =>
      match rstrip_chars rest with
      | [] => if is_space c then [] else [c]
      | r => c :: r
      end
  end.

Definition lstrip (s : string) : string := flatten (lstrip_chars (chars s)).
Definition rstrip (s : string) : string := flatten (rstrip_chars (chars s)).
Definition strip (s : string) : string :=
  flatten (rstrip_chars (lstrip_chars (chars s))).

(** [s.split()] with no separator: the maximal runs of non-whitespace
    characters, in order.  [cur] is the token being read. *)
Fixpoint split_go (items : list string) (cur : string) : list string :=
  match items with
  | [] => if is_empty cur then [] else [cur]
  | c :: rest =>
      if is_space c
      then (if is_empty cur then split_go rest "" else cur :: split_go rest "")
      else split_go rest (cur ++ c)
  end.

Definition split_ws (s : string) : list string := split_go (chars s) "".

(** The first occurrence of [sep] in [s], as the text before it and the
    text after it. *)
Fixpoint cut (s sep : string) : option (string * string) :=
  if String.prefix sep s then Some ("", drop (String.length sep) s)
  else match s with
       | EmptyString => None
       | String c s' =>
           match cut s' sep with
           | Some (before, after) => Some (String c before, after)
           | None => None
           end
       end.

(** [s.partition(sep)] *)
Definition partition (s sep : string) : result (string * string * string) :=
  if is_empty sep then Raise ValueError
  else match cut s sep with
       | Some (before, after) => Ok (before, sep, after)
       | None => Ok (s, "", "")
       end.

(** [s.split(sep)]: every cut consumes at least one character, so
    [length s] rounds are enough (see [split_fuel_enough]). *)
Fixpoint split_fuel (fuel : nat) (s sep : string) : list string :=
  match fuel with
  | O => [s]
  | S fuel' =>
      match cut s sep with
      | Some (before, after) => before :: split_fuel fuel' after sep
      | None => [s]
      end
  end.

Definition split (s sep : string) : result (list string) :=
  if is_empty sep then Raise ValueError
  else Ok (split_fuel (String.length s) s sep).

(** [sep.join(l)] *)
Fixpoint join (sep : string) (l : list string) : string :=
  match l with
  | [] => ""
  | [x] => x
  | x :: rest => x ++ sep ++ join sep rest
  end.

(** [str(n)] for an integer *)
Definition of_Z (n : Z) : string := NilZero.string_of_int (Z.to_int n).


(** [sub in s], and [s.endswith(sub)] *)
Fixpoint contains (s sub : string) : bool :=
  String.prefix sub s ||
  match s with
  | EmptyString => false
  | String _ s' => contains s' sub
  end.

Fixpoint is_suffix (sub s : string) : bool :=
  String.eqb sub s ||
  match s with
  | EmptyString => false
  | String _ s' => is_suffix sub s'
  end.

(** A byte that continues a UTF-8 character, and a string that does not
    start in the middle of one. *)
Definition is_cont (b : ascii) : bool :=
  Nat.leb 128 (nat_of_ascii b) && Nat.leb (nat_of_ascii b) 191.

Fixpoint all_bytes (p : ascii -> bool) (s : string) : bool :=
  match s with
  | EmptyString => true
  | String b s' => p b && all_bytes p s'
  end.

Definition clean (s : string) : bool :=
  match s with
  | EmptyString => true
  | String b _ => negb (is_cont b)
  end.

(** A whitespace encoding starts with a byte that continues nothing and
    goes on with at most two bytes that do. *)
Definition ws_shape (w : string) : bool :=
  match w with
  | EmptyString => false
  | String a r =>
      negb (is_cont a) && all_bytes is_cont r && Nat.leb (String.length r) 2
  end.

(** [s] is made of whitespace only; [s] starts, ends with whitespace. *)
Definition all_space (s : string) : bool := forallb is_space (chars s).

Definition starts_with_space (s : string) : bool :=
  existsb (fun w => String.prefix w s) whitespace.

Definition ends_with_space (s : string) : bool :=
  existsb (fun w => is_suffix w s) whitespace.

(** A token: a non-empty string in which no whitespace character
    occurs. *)
Definition is_token (s : string) : bool :=
  negb (is_empty s) && forallb (fun w => negb (contains s w)) whitespace.

End PyStr.

(* ================================================================== *)
(** ** The document tree *)

(** A node of the tree BeautifulSoup builds: a text node or an element
    with its tag name, the values of its [class] attribute and its
    children in document order. *)
#[warnings="-register-all"]
Inductive node : Type :=
| NavigableString (s : string)
| Tag (name : string) (class_ : list string) (contents : list node).

Module Soup.

(** The element itself, when it satisfies [p], followed by the matching
    elements below it, in document order. *)
Fixpoint select (p : string -> list string -> bool) (n : node) : list node :=
  match n with
  | NavigableString _ => []
  | Tag nm cl cs =>
      ((if p nm cl then [n] else []) ++
      (fix across (l : list node) : list node :=
         match l with
         | [] => []
         | c :: l' => (select p c ++ across l')%list
         end) cs)%list
  end.

Definition select_list (p : string -> list string -> bool) (l : list node)
  : list node := flat_map (select p) l.

Definition has_name (name : string) : string -> list string -> bool :=
  fun nm _ => String.eqb nm name.

Definition has_name_class (name cls : string) : string -> list string -> bool :=
  fun nm cl => String.eqb nm name && existsb (String.eqb cls) cl.

Definition any_tag : string -> list string -> bool := fun _ _ => true.

(** [n.contents]; a text node has no such attribute. *)
Definition contents (n : node) : result (list node) :=
  match n with
  | NavigableString _ => Raise AttributeError
  | Tag _ _ cs => Ok cs
  end.

(** [n.find_all(name, cls)]: the descendants with that tag name and
    that class, in document order. *)
Definition find_all (name cls : string) (n : node) : result (list node) :=
  match n with
  | NavigableString _ => Raise AttributeError
  | Tag _ _ cs => Ok (select_list (has_name_class name cls) cs)
  end.

(** [tag.<name>] for a name that is not an attribute of the class: the
    first descendant element with that tag name, or [None]. *)
Definition getattr_child (name : string) (cs : list node) : option node :=
  hd_error (select_list (has_name name) cs).

(** [tag()], that is [tag.find_all()]: every descendant element. *)
Definition call_no_args (n : node) : list node :=
  match n with
  | NavigableString _ => []
  | Tag _ _ cs => select_list any_tag cs
  end.

(** [bool(n)]: a text node is a [str]; an element is always true. *)
Definition truthy (n : node) : bool :=
  match n with
  | NavigableString s => negb (PyStr.is_empty s)
  | Tag _ _ _ => true
  end.

End Soup.

(* ================================================================== *)
(** ** Constants and records of the program *)

Definition RATE_LIMIT_DELAY : Z := 5.

Definition ALL : string := "all".
Definition STUDENT : string := "student".
Definition EMPLOYEE : string := "employee".

(** What [name.strip()] can evaluate to (see [parse_record_name]). *)
Inductive name_value : Type :=
| NameStr (s : string)
| NameResultSet (tags : list node).

(** The namedtuple [ContactInfo].  [None] fields are [None] here; [email],
    [major] and [org] hold the child node the extractor picked, as it is. *)
Record ContactInfo : Type := mkContactInfo {
  name : option name_value;
  email : node;
  dotname : string;
  major : option node;
  org : option node
}.

(** The dictionary [form_data] of [do_request]; its four keys are fixed. *)
Record form_data : Type := mkForm {
  filter : string;
  firstname : string;
  lastname : string;
  name_n : string
}.

(** What the program reads of the HTTP response. *)
Record response : Type := mkResponse {
  status_code : Z;
  content : string
}.

(** The parsed command line.  [args_file] is what [args.file.read()]
    gives: the text of the file, or the exception of the read.
    [args_batch] is what iterating over [args.batch] gives: the lines it
    yields and, when the iteration does not reach the end of the file, the
    exception that stops it. *)
Record Namespace : Type := mkArgs {
  args_name : option string;         (* --name, [None] when not given *)
  args_type : string;                (* --type, [ALL] by default *)
  args_batch : option (list string * option exn);   (* --batch *)
  args_ratelimit : Z;                (* --ratelimit *)
  args_file : option (result string) (* --file *)
}.

(* ================================================================== *)
(** ** The world the program runs in *)

(** What the program does to the outside, in the order it does it, for
    times of type [T].  A request is stamped with the clock as the program
    last read it, which in [main] is the [start_time] of the query. *)
Inductive event (T : Type) : Type :=
| EvSleep (secs : T)
| EvPost (sent_at : T) (form : form_data)
| EvWrite (s : string)
| EvFlush
| EvStderr (s : string).

Arguments EvSleep {T} secs.
Arguments EvPost {T} sent_at form.
Arguments EvWrite {T} s.
Arguments EvFlush {T}.
Arguments EvStderr {T} s.

(** [clock] is the last value read from the clock; [readings] lists the
    values the coming calls of [time.time()] return; [posts] counts the
    requests sent; [trace] is the history. *)
Record world (T : Type) : Type := mkWorld {
  clock : T;
  readings : list T;
  posts : nat;
  trace : list (event T)
}.

Arguments mkWorld {T} clock readings posts trace.
Arguments clock {T} w.
Arguments readings {T} w.
Arguments posts {T} w.
Arguments trace {T} w.

Definition emit {T : Type} (e : event T) (w : world T) : world T :=
  mkWorld (clock w) (readings w) (posts w) (trace w ++ [e])%list.

(** Computations that act on the world and may raise. *)
Definition IO (T A : Type) : Type := world T -> result A * world T.

Definition ret {T A : Type} (a : A) : IO T A := fun w => (Ok a, w).

Definition raise {T A : Type} (e : exn) : IO T A := fun w => (Raise e, w).

Definition bind {T A B : Type} (m : IO T A) (k : A -> IO T B) : IO T B :=
  fun w =>
    match m w with
    | (Ok a, w') => k a w'
    | (Raise e, w') => (Raise e, w')
    end.

Definition lift {T A : Type} (r : result A) : IO T A := fun w => (r, w).

Declare Scope io_scope.
Delimit Scope io_scope with io.
Notation "x <- m ;; k" := (bind m (fun x => k))
  (at level 61, m at next level, right associativity) : io_scope.
Notation "m ;; k" := (bind m (fun _ => k))
  (at level 61, right associativity) : io_scope.

(** [time.time()]: the next reading of the clock. *)
Definition time_time {T : Type} : IO T T :=
  fun w =>
    match readings w with
    | [] => (Ok (clock w), w)
    | t :: rest => (Ok t, mkWorld t rest (posts w) (trace w))
    end.

(** What the next call of [time.time()] returns. *)
Definition next_reading {T : Type} (w : world T) : T :=
  match readings w with
  | [] => clock w
  | t :: _ => t
  end.

(** [args.output.write(s)], [args.output.flush()], [sys.stderr.write(s)] *)
Definition output_write {T : Type} (s : string) : IO T unit :=
  fun w => (Ok tt, emit (EvWrite s) w).

Definition output_flush {T : Type} : IO T unit :=
  fun w => (Ok tt, emit EvFlush w).

Definition stderr_write {T : Type} (s : string) : IO T unit :=
  fun w => (Ok tt, emit (EvStderr s) w).

Definition LF : string := String (ascii_of_nat 10) "".
Definition TAB : string := String (ascii_of_nat 9) "".

(** What a run does apart from sleeping, without the times. *)
Inductive action : Type :=
| Post (form : form_data)
| Write (s : string)
| Flush
| Stderr (s : string).

(* ================================================================== *)
(** ** A sample page and sample runs *)

(** A result row as the directory prints it, a row with a name but no
    email, and a row with a second email cell and a second major cell
    after those of [jane_row]. *)
Definition jane_cells : list node :=
  [ Tag "th" ["record-data-name"]
      [Tag "span" ["results-name"] [NavigableString "  Jane Doe "]];
    Tag "td" ["record-data-email"]
      [Tag "a" [] [NavigableString "jdoe@example.edu"]];
    Tag "td" ["record-data-major"] [NavigableString "Computer Science"] ].

Definition jane_row : node := Tag "tr" ["record-data"] jane_cells.

Definition row_without_email : node :=
  Tag "tr" ["record-data"]
    [ Tag "th" ["record-data-name"]
        [Tag "span" ["results-name"] [NavigableString "John Roe"]] ].

Definition later_cells : list node :=
  [ Tag "td" ["record-data-email"]
      [Tag "a" [] [NavigableString "other@example.edu"]];
    Tag "td" ["record-data-major"] [NavigableString "History"];
    Tag "td" ["record-data-org"] [NavigableString "Library"] ].

Definition jane_row_with_later_cells : node :=
  Tag "tr" ["record-data"] (jane_cells ++ later_cells)%list.

Definition page : node :=
  Tag "[document]" [] [Tag "table" [] [jane_row; row_without_email]].

Definition jane : ContactInfo :=
  mkContactInfo (Some (NameStr "Jane Doe")) (NavigableString "jdoe@example.edu")
                "jdoe" (Some (NavigableString "Computer Science")) None.

Definition john : ContactInfo :=
  mkContactInfo (Some (NameStr "John Roe")) (NavigableString "roe.1@example.edu")
                "roe.1" None (Some (NavigableString "Library")).

(** Collaborators for the sample runs: a parser that always builds [page],
    a printer and a [repr], a server that answers every request with the
    status 200, and one that answers 404. *)
Definition page_parser : string -> node := fun _ => page.
Definition no_markup : node -> string := fun _ => "".
Definition quoted : string -> string := fun s => "'" ++ s ++ "'".
Definition server_ok : nat -> form_data -> option response :=
  fun _ _ => Some (mkResponse 200 "<html>").
Definition server_404 : nat -> form_data -> option response :=
  fun _ _ => Some (mkResponse 404 "").

(** The floats of the sample runs are those of Python: binary64, with
    the sum and the difference rounded to nearest.  [b64 m e] is the float
    nearest to [m * 2^e]; an [int] converts to the nearest float, unless
    that overflows; a sleep is refused when its length in nanoseconds
    does not fit in 63 bits. *)
Definition binary64 : Type := PrimFloat.float.

Definition b64 (m e : Z) : binary64 :=
  FloatOps.SF2Prim
    (SpecFloat.binary_normalize FloatOps.prec FloatOps.emax m e false).

Definition b64_of_int (n : Z) : option binary64 :=
  if PrimFloat.is_infinity (b64 n 0) then None else Some (b64 n 0).

Definition b64_positive (d : binary64) : bool := PrimFloat.ltb (b64 0 0) d.

Definition b64_sleep_overflows (d : binary64) : bool :=
  PrimFloat.leb (b64 1 63) (PrimFloat.mul d (b64 1000000000 0)).

(** The run starts with a clock never read; the clock is then read at the
    times listed, in seconds. *)
Definition world0 : world binary64 :=
  mkWorld (b64 0 0)
          (map (fun n => b64 n 0)
               [1700000001; 1700000001; 1700000004; 1700000006; 1700000009;
                1700000016; 1700000016]%Z)
          0 [].

Definition args_student_doe : Namespace :=
  mkArgs (Some "Doe") STUDENT None 5 None.

Definition args_name_and_batch : Namespace :=
  mkArgs (Some "Jane Doe") ALL
         (Some (["Roe" ++ LF; "   " ++ LF; "Ann  Mary Poe" ++ LF], None)) 5 None.

(** Rows whose email cell is empty, whose link is empty, and whose link
    holds an empty text. *)
Definition row_without_link : node :=
  Tag "tr" ["record-data"] [Tag "td" ["record-data-email"] []].

Definition row_without_text : node :=
  Tag "tr" ["record-data"] [Tag "td" ["record-data-email"] [Tag "a" [] []]].

Definition row_with_empty_text : node :=
  Tag "tr" ["record-data"]
    [Tag "td" ["record-data-email"] [Tag "a" [] [NavigableString ""]]].

(** More sample inputs: a server that answers the first request with 200
    and every later one with 404, a row whose email cell starts with a
    text, and command lines without a name, with a blank name and with a
    file. *)
Definition server_ok_then_404 : nat -> form_data -> option response :=
  fun n _ => match n with
             | O => Some (mkResponse 200 "<html>")
             | S _ => Some (mkResponse 404 "")
             end.

Definition row_with_text_email : node :=
  Tag "tr" ["record-data"]
    [Tag "td" ["record-data-email"] [NavigableString "jdoe@example.edu"]].

Definition args_no_name : Namespace :=
  mkArgs None ALL (Some (["  " ++ LF; LF], None)) 5 None.

Definition args_blank_name : Namespace :=
  mkArgs (Some "  ") ALL (Some (["Roe" ++ LF], None)) 5 None.

Definition args_offline : Namespace :=
  mkArgs (Some "Jane Doe") STUDENT (Some (["Roe" ++ LF], None)) 5
         (Some (Ok "<html>")).

(** A row whose email stands in a [span], with no link anywhere in the
    row, and a page made of that row. *)
Definition row_with_span_email : node :=
  Tag "tr" ["record-data"]
    [Tag "td" ["record-data-email"]
       [Tag "span" [] [NavigableString "jdoe@example.edu"]]].

Definition page_with_span_email : node :=
  Tag "[document]" [] [Tag "table" [] [row_with_span_email]].

(** A row whose name is set in bold inside the name span, followed in its
    page by [jane_row]. *)
Definition row_with_bold_name : node :=
  Tag "tr" ["record-data"]
    [ Tag "th" ["record-data-name"]
        [Tag "span" ["results-name"] [Tag "b" [] [NavigableString "John Roe"]]];
      Tag "td" ["record-data-email"]
        [Tag "a" [] [NavigableString "roe.1@example.edu"]];
      Tag "td" ["record-data-major"] [NavigableString "History"] ].

Definition page_with_bold_name : node :=
  Tag "[document]" [] [Tag "table" [] [row_with_bold_name; jane_row]].

(** NO-BREAK SPACE (U+00A0), IDEOGRAPHIC SPACE (U+3000) and the letter
    e with an acute accent (U+00E9), as [str] values. *)
Definition NBSP : string := PyStr.utf8_2 194 160.
Definition IDSP : string := PyStr.utf8_3 227 128 128.
Definition E_ACUTE : string := PyStr.utf8_2 195 169.

(** Command lines with a batch file that cannot be decoded after its
    first line, with a file that cannot be read, and with a rate limit
    too large for a float. *)
Definition args_bad_batch : Namespace :=
  mkArgs (Some "Jane Doe") ALL (Some (["Roe" ++ LF], Some UnicodeDecodeError))
         5 None.

Definition args_bad_file : Namespace :=
  mkArgs None ALL None 5 (Some (Raise UnicodeDecodeError)).

Definition args_huge_ratelimit : Namespace :=
  mkArgs None ALL None (10 ^ 400) None.

(** A command line with a rate limit of [10 ^ 17] seconds, and a world in
    which the clock reads 1700000008.1, then 1700000008.2, then
    1700000016 (the nearest floats: 7130316833973862 and 7130316834393293
    times [2 ^ -22]). *)
Definition args_long_ratelimit : Namespace :=
  mkArgs (Some "Doe") ALL None (10 ^ 17) None.

Definition world_rounding : world binary64 :=
  mkWorld (b64 0 0)
          [b64 7130316833973862 (-22); b64 7130316834393293 (-22);
           b64 1700000016 0]
          0 [].

(* ================================================================== *)
(** ** The program *)

Section Program.

Set Default Proof Using "Type".

(** The collaborators of the program: the HTML parser
    [BeautifulSoup(response, "html.parser")], the markup bs4 prints for
    an element, [repr] on a [str], and the directory server, which
    answers the [n]-th request of the run with a response or not at
    all ([requests] then raises a connection error). *)
Variable BeautifulSoup : string -> node.
Variable decode : node -> string.
Variable repr : string -> string.
Variable server : nat -> form_data -> option response.

(** The floats of the program: the type of the values of [time.time()],
    the conversion of an [int] to it ([None] when the integer is out of
    range, which raises [OverflowError]), the sum and the difference of
    two floats, the test [d > 0], and the arguments on which
    [time.sleep] raises [OverflowError]. *)
Variable float : Type.
Variable float_of_int : Z -> option float.
Variable fadd : float -> float -> float.
Variable fsub : float -> float -> float.
Variable positive : float -> bool.
Variable sleep_overflows : float -> bool.

Local Open Scope result_scope.

Definition parse_record_email (record : node) : result (option node) :=
  email_tags <- Soup.find_all "td" "record-data-email" record ;;
  match email_tags with
  | [] => Ok None
  | email_tag :: _ =>
      cs <- Soup.contents email_tag ;;
      match cs with
      | [] => Ok None
      | link_tag :: _ =>
          ls <- Soup.contents link_tag ;;
          match ls with
          | [] => Ok None
          | email :: _ => Ok (Some email)
          end
      end
  end.

(** [name.strip()].  On a text node it is [str.strip].  An element has
    no [strip] attribute: bs4 looks for a descendant element named
    [strip]; without one the value is [None] and calling it raises
    [TypeError]; with one, calling that element lists its descendant
    elements. *)
Definition node_strip (n : node) : result name_value :=
  match n with
  | NavigableString s => Ok (NameStr (PyStr.strip s))
  | Tag _ _ cs =>
      match Soup.getattr_child "strip" cs with
      | None => Raise TypeError
      | Some t => Ok (NameResultSet (Soup.call_no_args t))
      end
  end.

Definition parse_record_name (record : node) : result (option name_value) :=
  name_tags <- Soup.find_all "th" "record-data-name" record ;;
  match name_tags with
  | [] => Ok None
  | name_tag :: _ =>
      name_spans <- Soup.find_all "span" "results-name" name_tag ;;
      match name_spans with
      | [] => Ok None
      | name_span :: _ =>
          cs <- Soup.contents name_span ;;
          match cs with
          | [] => Ok None
          | name :: _ =>
              name <- node_strip name ;;
              Ok (Some name)
          end
      end
  end.

Definition parse_record_major (record : node) : result (option node) :=
  major_tags <- Soup.find_all "td" "record-data-major" record ;;
  match major_tags with
  | [] => Ok None
  | major_tag :: _ =>
      cs <- Soup.contents major_tag ;;
      match cs with
      | [] => Ok None
      | major :: _ => Ok (Some major)
      end
  end.

Definition parse_record_org (record : node) : result (option node) :=
  org_tags <- Soup.find_all "td" "record-data-org" record ;;
  match org_tags with
  | [] => Ok None
  | org_tag :: _ =>
      cs <- Soup.contents org_tag ;;
      match cs with
      | [] => Ok None
      | org :: _ => Ok (Some org)
      end
  end.

(** [email.partition("@")[0]].  On a text node it is [str.partition].
    On an element, [email.partition] is again a lookup of a descendant
    element: [None] when there is none ([TypeError] on the call),
    otherwise that element is called with ["@"], which lists its
    descendants named [@]; the HTML parser never produces one (tag names
    start with a letter), so indexing the empty list raises
    [IndexError]. *)
Definition node_partition_0 (n : node) : result string :=
  match n with
  | NavigableString s =>
      p <- PyStr.partition s "@" ;;
      Ok (fst (fst p))
  | Tag _ _ cs =>
      match Soup.getattr_child "partition" cs with
      | None => Raise TypeError
      | Some _ => Raise IndexError
      end
  end.

(** The body of the loop of [parse_emails]: [info] before the row,
    [info] after it. *)
Definition parse_emails_row (info : list ContactInfo) (record : node)
  : result (list ContactInfo) :=
  email <- parse_record_email record ;;
  name <- parse_record_name record ;;
  major <- parse_record_major record ;;
  org <- parse_record_org record ;;
  match email with
  | None => Ok info
  | Some email =>
      if Soup.truthy email then
        dotname <- node_partition_0 email ;;
        Ok (info ++ [mkContactInfo name email dotname major org])%list
      else Ok info
  end.

Fixpoint parse_emails_loop (info : list ContactInfo) (records : list node)
  : result (list ContactInfo) :=
  match records with
  | [] => Ok info
  | record :: rest =>
      info' <- parse_emails_row info record ;;
      parse_emails_loop info' rest
  end.

(** [parse_emails] on the tree the HTML parser built. *)
Definition parse_emails_soup (soup : node) : result (list ContactInfo) :=
  person_records <- Soup.find_all "tr" "record-data" soup ;;
  parse_emails_loop [] person_records.

Definition parse_emails (response : string) : result (list ContactInfo) :=
  parse_emails_soup (BeautifulSoup response).

(** The first cell [find_all(name, cls)] finds below [record], if any. *)
Definition first_found (name cls : string) (record : node)
  : result (option node) :=
  cells <- Soup.find_all name cls record ;;
  Ok (hd_error cells).

(** [c] is the record the loop of [parse_emails] appends for [record]. *)
Definition emitted_by (record : node) (c : ContactInfo) : Prop :=
  exists e p,
    parse_record_email record = Ok (Some (NavigableString e)) /\
    e <> "" /\
    PyStr.partition e "@" = Ok p /\
    parse_record_name record = Ok (name c) /\
    parse_record_major record = Ok (major c) /\
    parse_record_org record = Ok (org c) /\
    email c = NavigableString e /\
    dotname c = fst (fst p).

Local Close Scope result_scope.
Local Open Scope io_scope.


(** [time.sleep(secs)] *)
Definition time_sleep (secs : float) : IO float unit :=
  fun w =>
    if sleep_overflows secs then (Raise OverflowError, w)
    else (Ok tt, emit (EvSleep secs) w).

(** The float an [int] operand of a float sum or difference becomes. *)
Definition int_as_float (n : Z) : IO float float :=
  fun w =>
    match float_of_int n with
    | Some r => (Ok r, w)
    | None => (Raise OverflowError, w)
    end.

(** [requests.post(url, data=form_data)] *)
Definition requests_post (form : form_data) : IO float response :=
  fun w =>
    let w' := mkWorld (clock w) (readings w) (S (posts w))
                      (trace w ++ [EvPost (clock w) form])%list in
    (match server (posts w) form with
     | Some resp => Ok resp
     | None => Raise ConnectionError
     end, w').

Definition valid_category (category : string) : bool :=
  String.eqb category ALL || String.eqb category STUDENT
  || String.eqb category EMPLOYEE.

Definition do_request (firstname lastname dot_name category : string)
  : IO float string :=
  if negb (valid_category category) then
    raise (InvalidRequest "invalid category")
  else
    let form_data := mkForm category firstname lastname dot_name in
    resp <- requests_post form_data ;;
    if negb (Z.eqb (status_code resp) 200) then
      raise (RequestFailure ("Bad status code: " ++ PyStr.of_Z (status_code resp)))
    else ret (content resp).

(** [msg[-1]] of a non-empty [msg] *)
Fixpoint last_char (c : ascii) (s : string) : ascii :=
  match s with
  | EmptyString => c
  | String c' s' => last_char c' s'
  end.

Definition err (msg : string) : IO float unit :=
  let msg :=
    match msg with
    | EmptyString => msg
    | String c s =>
        if Ascii.eqb (last_char c s) (ascii_of_nat 10) then msg else msg ++ LF
    end in
  stderr_write msg.

(** [str(n)] of a node, as [format] prints it. *)
Definition node_str (n : node) : string :=
  match n with
  | NavigableString s => s
  | Tag _ _ _ => decode n
  end.

(** [str] of the [name] field. *)
Definition name_str (n : option name_value) : string :=
  match n with
  | None => "None"
  | Some (NameStr s) => s
  | Some (NameResultSet tags) => "[" ++ PyStr.join ", " (map decode tags) ++ "]"
  end.

Definition field_truthy (f : option node) : bool :=
  match f with
  | None => false
  | Some n => Soup.truthy n
  end.

Definition field_str (f : option node) : string :=
  match f with
  | None => "None"
  | Some n => node_str n
  end.

Definition contact_to_str (contact : ContactInfo) : string :=
  let result := name_str (name contact) ++ " " ++ LF ++ TAB ++ "email: "
                ++ node_str (email contact) in
  let result :=
    if field_truthy (major contact)
    then result ++ LF ++ TAB ++ "major: " ++ field_str (major contact)
    else result in
  let result :=
    if field_truthy (org contact)
    then result ++ LF ++ TAB ++ "org: " ++ field_str (org contact)
    else result in
  result.

(** The loop that writes the records found, in both modes. *)
Fixpoint write_info (info : list ContactInfo) : IO float unit :=
  match info with
  | [] => ret tt
  | i :: rest =>
      output_write (contact_to_str i) ;;
      output_write LF ;;
      output_flush ;;
      write_info rest
  end.

(** [l[0]] and [l[-1]] *)
Definition first {A : Type} (l : list A) : result A :=
  match l with
  | [] => Raise IndexError
  | x :: _ => Ok x
  end.

Fixpoint final {A : Type} (l : list A) : result A :=
  match l with
  | [] => Raise IndexError
  | [x] => Ok x
  | _ :: l' => final l'
  end.

(** The pair made of a list of tokens: none for no token, the surname
    alone for one, the first and the last for more. *)
Definition tokens_pair (parts : list string) : list (string * string) :=
  match parts with
  | [] => []
  | [t] => [("", t)]
  | a :: rest => [(a, last rest "")]
  end.

(** The pair appended for [--name]. *)
Definition name_arg_pair (s : string) : result (string * string) :=
  let parts := PyStr.split_ws s in
  if Nat.eqb (List.length parts) 1 then
    (p0 <- first parts ;; Ok ("", p0))%result
  else
    (p0 <- first parts ;; pl <- final parts ;; Ok (p0, pl))%result.

(** The body of the loop over the lines of the batch file, line after
    line. *)
Fixpoint batch_names (names : list (string * string)) (lines : list string)
  : result (list (string * string)) :=
  match lines with
  | [] => Ok names
  | line :: rest =>
      let parts := PyStr.split_ws (PyStr.strip line) in
      if Nat.eqb (List.length parts) 1 then
        (p0 <- first parts ;; batch_names (names ++ [("", p0)])%list rest)%result
      else if Nat.ltb 1 (List.length parts) then
        (p0 <- first parts ;; pl <- final parts ;;
         batch_names (names ++ [(p0, pl)])%list rest)%result
      else batch_names names rest
  end.

(** The list [names] that [main] builds from [--name] and [--batch]. *)
Definition resolve_names (args : Namespace) : result (list (string * string)) :=
  (names <-
     match args_name args with
     | Some s =>
         if PyStr.is_empty s then Ok []
         else (p <- name_arg_pair s ;; Ok [p])
     | None => Ok []
     end ;;
   match args_batch args with
   | Some (lines, stop) =>
       names <- batch_names names lines ;;
       match stop with
       | Some e => Raise e
       | None => Ok names
       end
   | None => Ok names
   end)%result.

(** [repr] of a pair of strings. *)
Definition repr_pair (p : string * string) : string :=
  "(" ++ repr (fst p) ++ ", " ++ repr (snd p) ++ ")".

(** The body of the query loop of [main]; it returns the new
    [start_time].  [start_time + args.ratelimit] is computed before the
    clock is read.  The call [do_request(name[0], name[1])] leaves
    [dot_name] and [category] to their defaults, [""] and [ALL]. *)
Definition query_step (ratelimit : Z) (start_time : float)
           (name : string * string) : IO float float :=
  r <- int_as_float ratelimit ;;
  let target := fadd start_time r in
  now <- time_time ;;
  let delay := fsub target now in
  (if positive delay then time_sleep delay else ret tt) ;;
  start_time <- time_time ;;
  data <- do_request (fst name) (snd name) "" ALL ;;
  info <- lift (parse_emails data) ;;
  write_info info ;;
  match info with
  | [] => err ("Failed to find record for name: " ++ repr_pair name)
  | _ :: _ => ret tt
  end ;;
  ret start_time.

Fixpoint query_loop (ratelimit : Z) (start_time : float)
         (names : list (string * string)) : IO float unit :=
  match names with
  | [] => ret tt
  | name :: rest =>
      start_time <- query_step ratelimit start_time name ;;
      query_loop ratelimit start_time rest
  end.

Definition main (args : Namespace) : IO float unit :=
  match args_file args with
  | Some file =>
      data <- lift file ;;
      info <- lift (parse_emails data) ;;
      write_info info ;;
      match info with
      | [] => err "Could not find records in input file"
      | _ :: _ => ret tt
      end
  | None =>
      names <- lift (resolve_names args) ;;
      now <- time_time ;;
      r <- int_as_float (args_ratelimit args) ;;
      let start_time := fsub now r in
      match names with
      | [] => err "provide name with '-b' or '-n' option. See help for details"
      | _ :: _ => ret tt
      end ;;
      query_loop (args_ratelimit args) start_time names
  end.

(** *** Reading a trace *)

(** The forms posted, in order. *)
Definition forms_sent (tr : list (event float)) : list form_data :=
  flat_map (fun ev => match ev with EvPost _ f => [f] | _ => [] end) tr.

Definition is_output (ev : event float) : bool :=
  match ev with EvWrite _ | EvFlush | EvStderr _ => true | _ => false end.

(** The Pacer as its contract has it: the time that remains to wait
    before the next query, [(lastStart + minInterval) - now], and the
    wait: none unless that time is positive. *)
Definition remaining (r last_start now : float) : float :=
  fsub (fadd last_start r) now.

Definition wait_events (r last_start now : float) : list (event float) :=
  if positive (remaining r last_start now)
  then [EvSleep (remaining r last_start now)]
  else [].

(** A trace made of turns: each turn is at most one sleep, of a positive
    length that [time.sleep] accepts, then one request, then writes. *)
Inductive turns : list (event float) -> Prop :=
| turns_nil : turns []
| turns_now (t : float) (f : form_data) (out rest : list (event float)) :
    forallb is_output out = true -> turns rest ->
    turns (EvPost t f :: out ++ rest)%list
| turns_sleep (d t : float) (f : form_data) (out rest : list (event float)) :
    positive d = true -> sleep_overflows d = false ->
    forallb is_output out = true -> turns rest ->
    turns (EvSleep d :: EvPost t f :: out ++ rest)%list.

(** The form [main] posts for a name. *)
Definition form_of_name (name : string * string) : form_data :=
  mkForm ALL (fst name) (snd name) "".

(** What was written to the output, as one text. *)
Fixpoint written (tr : list (event float)) : string :=
  match tr with
  | [] => ""
  | EvWrite s :: rest => s ++ written rest
  | _ :: rest => written rest
  end.

(** The records as the write loop prints them: each one followed by a
    newline. *)
Fixpoint records_text (info : list ContactInfo) : string :=
  match info with
  | [] => ""
  | i :: rest => contact_to_str i ++ LF ++ records_text rest
  end.

(** *** What a run shows *)

(** The text [err] hands to [sys.stderr.write] for [msg]. *)
Definition err_message (msg : string) : string :=
  match msg with
  | EmptyString => msg
  | String c s =>
      if Ascii.eqb (last_char c s) (ascii_of_nat 10) then msg else msg ++ LF
  end.

(** What the write loop does for one record, and what a query of [main]
    does once [info] is parsed from its answer. *)
Definition record_events (i : ContactInfo) : list (event float) :=
  [EvWrite (contact_to_str i); EvWrite LF; EvFlush].

Definition report_events (name : string * string) (info : list ContactInfo)
  : list (event float) :=
  (flat_map record_events info ++
   match info with
   | [] => [EvStderr (err_message
                        ("Failed to find record for name: " ++ repr_pair name))]
   | _ :: _ => []
   end)%list.

(** What the query of [main] for [name] comes to when it is the [n]-th
    request of the run: the records of the page, or the exception of
    [do_request] or [parse_emails]. *)
Definition query_outcome (n : nat) (name : string * string)
  : result (list ContactInfo) :=
  match server n (form_of_name name) with
  | None => Raise ConnectionError
  | Some resp =>
      if Z.eqb (status_code resp) 200 then parse_emails (content resp)
      else Raise (RequestFailure
                    ("Bad status code: " ++ PyStr.of_Z (status_code resp)))
  end.

(** The queries from the [n]-th request on all get the status 200 and a
    page that parses. *)
Fixpoint all_answered (n : nat) (names : list (string * string)) : Prop :=
  match names with
  | [] => True
  | name :: rest =>
      (exists resp info,
          server n (form_of_name name) = Some resp /\
          status_code resp = 200%Z /\
          parse_emails (content resp) = Ok info) /\
      all_answered (S n) rest
  end.

(** The result of a query loop that is never stopped by its pacing, and
    the names it queries, read off the outcomes of the queries. *)
Fixpoint run_result (n : nat) (names : list (string * string)) : result unit :=
  match names with
  | [] => Ok tt
  | name :: rest =>
      match query_outcome n name with
      | Ok _ => run_result (S n) rest
      | Raise e => Raise e
      end
  end.

Fixpoint run_queried (n : nat) (names : list (string * string))
  : list (string * string) :=
  match names with
  | [] => []
  | name :: rest =>
      match query_outcome n name with
      | Ok _ => name :: run_queried (S n) rest
      | Raise _ => [name]
      end
  end.

(** A trace without its sleeps and without the times of its requests. *)
Definition untimed (tr : list (event float)) : list action :=
  flat_map (fun ev => match ev with
                      | EvSleep _ => []
                      | EvPost _ f => [Post f]
                      | EvWrite s => [Write s]
                      | EvFlush => [Flush]
                      | EvStderr s => [Stderr s]
                      end) tr.

(** The forms a list of actions posts. *)
Definition posted (acts : list action) : list form_data :=
  flat_map (fun a => match a with Post f => [f] | _ => [] end) acts.

(** What [main] does for an empty list of names, for one record, and
    once [info] is parsed from the answer to the query for [name]. *)
Definition no_name_actions (names : list (string * string)) : list action :=
  match names with
  | [] => [Stderr ("provide name with '-b' or '-n' option. See help for details"
                   ++ LF)]
  | _ :: _ => []
  end.

Definition record_actions (i : ContactInfo) : list action :=
  [Write (contact_to_str i); Write LF; Flush].

Definition report_actions (name : string * string) (info : list ContactInfo)
  : list action :=
  (flat_map record_actions info ++
   match info with
   | [] => [Stderr (err_message
                      ("Failed to find record for name: " ++ repr_pair name))]
   | _ :: _ => []
   end)%list.

(** What such a query loop does, sleeps and times apart: for each name,
    until a query fails, the post of its form and then its report. *)
Fixpoint run_script (n : nat) (names : list (string * string)) : list action :=
  match names with
  | [] => []
  | name :: rest =>
      Post (form_of_name name) ::
      match query_outcome n name with
      | Ok info => (report_actions name info ++ run_script (S n) rest)%list
      | Raise _ => []
      end
  end.

(** The pairs [main] makes of [--name] and of the batch file. *)
Definition name_part (args : Namespace) : list (string * string) :=
  match args_name args with
  | Some s => tokens_pair (PyStr.split_ws s)
  | None => []
  end.

Definition batch_part (args : Namespace) : list (string * string) :=
  match args_batch args with
  | Some (lines, _) =>
      flat_map (fun line => tokens_pair (PyStr.split_ws line)) lines
  | None => []
  end.

(** [l1] is [l2] with some elements left out, the order kept. *)
Inductive subseq {A : Type} : list A -> list A -> Prop :=
| subseq_nil : subseq [] []
| subseq_skip (x : A) (l1 l2 : list A) : subseq l1 l2 -> subseq l1 (x :: l2)
| subseq_take (x : A) (l1 l2 : list A) :
    subseq l1 l2 -> subseq (x :: l1) (x :: l2).

(* ================================================================ *)
(** ** Facts about the string functions *)

Lemma append_empty_r (s : string) : s ++ "" = s.
Proof. induction s as [|c s IH]; simpl; [reflexivity | now rewrite IH]. Qed.

Lemma append_assoc (a b c : string) : (a ++ b) ++ c = a ++ b ++ c.
Proof. induction a as [|x a IH]; simpl; [reflexivity | now rewrite IH]. Qed.

Lemma is_empty_true (s : string) : PyStr.is_empty s = true <-> s = "".
Proof. destruct s; simpl; split; congruence. Qed.

Lemma prefix_drop (sep s : string) :
  String.prefix sep s = true -> s = sep ++ PyStr.drop (String.length sep) s.
Proof.
  revert s; induction sep as [|c sep IH]; intros [|c' s] H; simpl in *;
    try reflexivity; try discriminate.
  destruct (Ascii.ascii_dec c c') as [->|]; [|discriminate].
  f_equal. now apply IH.
Qed.

Lemma cut_unfold (s sep : string) :
  PyStr.cut s sep =
  if String.prefix sep s then Some ("", PyStr.drop (String.length sep) s)
  else match s with
       | EmptyString => None
       | String c s' =>
           match PyStr.cut s' sep with
           | Some (before, after) => Some (String c before, after)
           | None => None
           end
       end.
Proof. destruct s; reflexivity. Qed.

(** A cut splits the string around the separator. *)
Lemma cut_Some (s sep a b : string) :
  PyStr.cut s sep = Some (a, b) -> s = a ++ sep ++ b.
Proof.
  revert a b; induction s as [|c s IH]; intros a b; rewrite cut_unfold.
  - destruct (String.prefix sep "") eqn:P; [|discriminate].
    intros [= <- <-]. now apply prefix_drop.
  - destruct (String.prefix sep (String c s)) eqn:P.
    + intros [= <- <-]. now apply prefix_drop.
    + destruct (PyStr.cut s sep) as [[a' b']|] eqn:C; [|discriminate].
      intros [= <- <-]. simpl. f_equal. now apply IH.
Qed.

Lemma length_append (a b : string) :
  String.length (a ++ b) = String.length a + String.length b.
Proof. induction a as [|c a IH]; simpl; [reflexivity | now rewrite IH]. Qed.

Lemma cut_shorter (s sep a b : string) :
  sep <> "" -> PyStr.cut s sep = Some (a, b) ->
  String.length b < String.length s.
Proof.
  intros Hsep H. apply cut_Some in H. subst s.
  rewrite !length_append. destruct sep; [congruence|]. simpl. lia.
Qed.

Lemma cut_empty (sep : string) : sep <> "" -> PyStr.cut "" sep = None.
Proof. destruct sep; [congruence|reflexivity]. Qed.

(** The fuel [split] starts with is enough: more fuel changes nothing. *)
Lemma split_fuel_enough (sep : string) :
  sep <> "" ->
  forall f1 f2 s, String.length s <= f1 -> String.length s <= f2 ->
    PyStr.split_fuel f1 s sep = PyStr.split_fuel f2 s sep.
Proof.
  intros Hsep. induction f1 as [|f1 IH]; intros f2 s H1 H2.
  - destruct s; [|simpl in H1; lia].
    destruct f2; cbn [PyStr.split_fuel]; [reflexivity|]. now rewrite cut_empty.
  - destruct f2 as [|f2].
    + destruct s; [|simpl in H2; lia].
      cbn [PyStr.split_fuel]. now rewrite cut_empty.
    + cbn [PyStr.split_fuel]. destruct (PyStr.cut s sep) as [[a b]|] eqn:C; [|reflexivity].
      f_equal. pose proof (cut_shorter _ _ _ _ Hsep C). apply IH; lia.
Qed.

(** The text before the first occurrence of a one-character separator
    does not contain it. *)
Lemma cut_char_before (c : ascii) (s a b : string) :
  PyStr.cut s (String c "") = Some (a, b) ->
  PyStr.contains a (String c "") = false.
Proof.
  revert a b; induction s as [|x s IH]; intros a b; rewrite cut_unfold.
  - simpl. discriminate.
  - destruct (String.prefix (String c "") (String x s)) eqn:P.
    + intros [= <- <-]. reflexivity.
    + destruct (PyStr.cut s (String c "")) as [[a' b']|] eqn:C; [|discriminate].
      intros [= <- <-].
      change (PyStr.contains (String x a') (String c ""))
        with (String.prefix (String c "") (String x a')
              || PyStr.contains a' (String c "")).
      rewrite (IH _ _ eq_refl), orb_false_r.
      simpl in *. destruct (Ascii.ascii_dec c x); [|reflexivity].
      destruct s; discriminate.
Qed.

(** Without an occurrence there is nothing to cut. *)
Lemma cut_None_contains (s sep : string) :
  PyStr.cut s sep = None -> PyStr.contains s sep = false.
Proof.
  induction s as [|x s IH]; rewrite cut_unfold.
  - destruct (String.prefix sep "") eqn:P; [discriminate|].
    intros _. simpl. destruct sep; [discriminate|reflexivity].
  - destruct (String.prefix sep (String x s)) eqn:P; [discriminate|].
    destruct (PyStr.cut s sep) as [[a b]|] eqn:C; [discriminate|].
    intros _.
    change (PyStr.contains (String x s) sep)
      with (String.prefix sep (String x s) || PyStr.contains s sep).
    now rewrite P, IH.
Qed.

(** [s.partition(sep)[0]] is [s.split(sep)[0]]. *)
Lemma partition_split_head (s sep : string) (p : string * string * string) :
  PyStr.partition s sep = Ok p ->
  exists parts, PyStr.split s sep = Ok parts /\ first parts = Ok (fst (fst p)).
Proof.
  unfold PyStr.partition, PyStr.split.
  destruct (PyStr.is_empty sep) eqn:E; [discriminate|].
  assert (Hsep : sep <> "") by (intros ->; discriminate).
  destruct (PyStr.cut s sep) as [[a b]|] eqn:C; intros [= <-].
  - destruct s as [|c s]; [now rewrite cut_empty in C|].
    eexists; split; [reflexivity|]. cbn [String.length PyStr.split_fuel].
    rewrite C. reflexivity.
  - eexists; split; [reflexivity|].
    destruct (String.length s); cbn [PyStr.split_fuel]; [reflexivity|].
    now rewrite C.
Qed.

(* ================================================================ *)
(** ** Characters and whitespace *)

Lemma prefix_append (w y : string) : String.prefix w (w ++ y) = true.
Proof.
  induction w as [|c w IH]; [destruct y; reflexivity|].
  simpl. destruct (Ascii.ascii_dec c c); [exact IH | congruence].
Qed.

Lemma prefix_append_r (w s y : string) :
  String.prefix w s = true -> String.prefix w (s ++ y) = true.
Proof.
  intros H. rewrite (prefix_drop _ _ H), append_assoc. apply prefix_append.
Qed.

Lemma prefix_comparable (s : string) :
  forall a b, String.prefix a s = true -> String.prefix b s = true ->
              String.prefix a b = true \/ String.prefix b a = true.
Proof.
  induction s as [|c s IH]; intros [|x a] [|y b]; simpl; auto; try discriminate.
  destruct (Ascii.ascii_dec x c) as [->|]; [|discriminate].
  destruct (Ascii.ascii_dec y c) as [->|]; [|discriminate].
  destruct (Ascii.ascii_dec c c); [|congruence]. apply IH.
Qed.

(** A prefix of [x ++ y] is a prefix of [x], or goes on into [y]. *)
Lemma prefix_app_cases (x : string) :
  forall w y, String.prefix w (x ++ y) = true ->
    String.prefix w x = true \/
    exists u, u <> "" /\ w = x ++ u /\ String.prefix u y = true.
Proof.
  induction x as [|c x IH]; intros w y H.
  - destruct w as [|d w]; [left; reflexivity|].
    right. exists (String d w). repeat split; [discriminate | exact H].
  - destruct w as [|d w]; [left; reflexivity|]. simpl in H |- *.
    destruct (Ascii.ascii_dec d c) as [->|]; [|discriminate].
    destruct (IH _ _ H) as [P | (u & Hu & -> & P)]; [now left|].
    right. now exists u.
Qed.

(** *** The table of whitespace characters *)


Lemma whitespace_shape (w : string) :
  In w PyStr.whitespace -> PyStr.ws_shape w = true.
Proof.
  assert (H : forallb PyStr.ws_shape PyStr.whitespace = true) by reflexivity.
  rewrite forallb_forall in H. apply H.
Qed.

Lemma whitespace_prefix_free (w w' : string) :
  In w PyStr.whitespace -> In w' PyStr.whitespace ->
  String.prefix w w' = true -> w = w'.
Proof.
  assert (H : forallb (fun a => forallb (fun b =>
                implb (String.prefix a b) (String.eqb a b)) PyStr.whitespace)
              PyStr.whitespace = true) by reflexivity.
  rewrite forallb_forall in H. intros Hw Hw' P.
  specialize (H w Hw). rewrite forallb_forall in H. specialize (H w' Hw').
  rewrite P in H. simpl in H. now apply String.eqb_eq.
Qed.

Lemma is_space_In (c : string) :
  PyStr.is_space c = true <-> In c PyStr.whitespace.
Proof.
  unfold PyStr.is_space. rewrite existsb_exists. split.
  - intros (w & Hw & E). apply String.eqb_eq in E. now subst.
  - intros H. exists c. split; [assumption | apply String.eqb_refl].
Qed.

Lemma ws_prefix_Some (s w : string) :
  PyStr.ws_prefix s = Some w ->
  In w PyStr.whitespace /\ String.prefix w s = true.
Proof. intros H. exact (find_some _ _ H). Qed.

Lemma ws_prefix_None (s w : string) :
  PyStr.ws_prefix s = None -> In w PyStr.whitespace ->
  String.prefix w s = false.
Proof. intros H. exact (find_none _ _ H w). Qed.

Lemma ws_prefix_app (w y : string) :
  In w PyStr.whitespace -> PyStr.ws_prefix (w ++ y) = Some w.
Proof.
  intros Hw. destruct (PyStr.ws_prefix (w ++ y)) as [w'|] eqn:E.
  - destruct (ws_prefix_Some _ _ E) as [Hw' P].
    destruct (prefix_comparable _ _ _ P (prefix_append w y)) as [Q|Q].
    + now rewrite (whitespace_prefix_free _ _ Hw' Hw Q).
    + now rewrite (whitespace_prefix_free _ _ Hw Hw' Q).
  - pose proof (ws_prefix_None _ _ E Hw) as P.
    rewrite prefix_append in P. discriminate.
Qed.

(** *** The characters of a string *)

Lemma chars_ws (w y : string) :
  In w PyStr.whitespace -> PyStr.chars (w ++ y) = w :: PyStr.chars y.
Proof.
  intros Hw. pose proof (whitespace_shape _ Hw) as S.
  pose proof (ws_prefix_app w y Hw) as P.
  destruct w as [|a [|b [|c [|d r]]]]; simpl in S; try discriminate.
  - cbn [append PyStr.chars] in *. rewrite P. reflexivity.
  - cbn [append PyStr.chars] in *. rewrite P. reflexivity.
  - cbn [append PyStr.chars] in *. rewrite P. reflexivity.
  - rewrite !andb_false_r in S. discriminate.
Qed.

Lemma chars_other (a : ascii) (s : string) :
  PyStr.ws_prefix (String a s) = None ->
  PyStr.chars (String a s) = String a "" :: PyStr.chars s.
Proof. intros H. cbn [PyStr.chars]. now rewrite H. Qed.

(** Induction along the characters of a string. *)
Lemma chars_ind (P : string -> Prop) :
  P "" ->
  (forall a s, PyStr.ws_prefix (String a s) = None -> P s -> P (String a s)) ->
  (forall w rest, In w PyStr.whitespace -> P rest -> P (w ++ rest)) ->
  forall s, P s.
Proof.
  intros H0 H1 H2.
  assert (G : forall n s, String.length s <= n -> P s).
  { induction n as [|n IH]; intros s L.
    - destruct s; [exact H0 | simpl in L; lia].
    - destruct s as [|a s]; [exact H0|].
      destruct (PyStr.ws_prefix (String a s)) as [w|] eqn:E.
      + destruct (ws_prefix_Some _ _ E) as [Hw Pf].
        rewrite (prefix_drop _ _ Pf). apply H2; [assumption|]. apply IH.
        pose proof (whitespace_shape _ Hw) as S.
        assert (LL : String.length (String a s)
                     = String.length w + String.length
                         (PyStr.drop (String.length w) (String a s))).
        { rewrite <- length_append. now rewrite <- (prefix_drop _ _ Pf). }
        destruct w; [discriminate|]. simpl in LL, L |- *. lia.
      + apply H1; [assumption|]. apply IH. simpl in L. lia. }
  intros s. now apply (G (String.length s)).
Qed.

Lemma flatten_app (a b : list string) :
  PyStr.flatten (a ++ b) = PyStr.flatten a ++ PyStr.flatten b.
Proof.
  induction a as [|c a IH]; [reflexivity|]. simpl.
  now rewrite IH, append_assoc.
Qed.

Lemma flatten_chars (s : string) : PyStr.flatten (PyStr.chars s) = s.
Proof.
  induction s as [|a s E IH|w rest Hw IH] using chars_ind.
  - reflexivity.
  - rewrite chars_other by assumption. simpl. now rewrite IH.
  - rewrite chars_ws by assumption. simpl. now rewrite IH.
Qed.

Lemma byte_not_space (a : ascii) (s : string) :
  PyStr.ws_prefix (String a s) = None -> PyStr.is_space (String a "") = false.
Proof.
  intros E. destruct (PyStr.is_space (String a "")) eqn:I; [|reflexivity].
  apply is_space_In in I. pose proof (ws_prefix_None _ _ E I) as P.
  simpl in P. destruct (Ascii.ascii_dec a a); [|congruence].
  destruct s; discriminate.
Qed.

Lemma all_bytes_app (p : ascii -> bool) (a b : string) :
  PyStr.all_bytes p (a ++ b) = PyStr.all_bytes p a && PyStr.all_bytes p b.
Proof.
  induction a as [|c a IH]; [reflexivity|]. simpl.
  now rewrite IH, andb_assoc.
Qed.

Lemma clean_whitespace (w y : string) :
  In w PyStr.whitespace -> PyStr.clean (w ++ y) = true.
Proof.
  intros Hw. pose proof (whitespace_shape _ Hw) as S.
  destruct w as [|a r]; [discriminate|]. simpl in S |- *.
  apply andb_prop in S. destruct S as [S _].
  apply andb_prop in S. now destruct S.
Qed.

(** No whitespace character starts inside [x] and ends inside a clean [y]. *)
Lemma ws_prefix_app_clean (a : ascii) (s y : string) :
  PyStr.clean y = true ->
  PyStr.ws_prefix (String a s) = None ->
  PyStr.ws_prefix (String a s ++ y) = None.
Proof.
  intros C E.
  destruct (PyStr.ws_prefix (String a s ++ y)) as [w|] eqn:F; [|reflexivity].
  exfalso. destruct (ws_prefix_Some _ _ F) as [Hw P].
  destruct (prefix_app_cases _ _ _ P) as [Q | (u & Hu & -> & Q)].
  - rewrite (ws_prefix_None _ _ E Hw) in Q. discriminate.
  - pose proof (whitespace_shape _ Hw) as S. simpl in S.
    apply andb_prop in S. destruct S as [S _].
    apply andb_prop in S. destruct S as [_ S].
    rewrite all_bytes_app in S. apply andb_prop in S. destruct S as [_ S].
    destruct u as [|b u]; [congruence|]. simpl in S.
    apply andb_prop in S. destruct S as [S _].
    destruct y as [|c y]; [discriminate|]. simpl in Q, C.
    destruct (Ascii.ascii_dec b c) as [->|]; [|discriminate].
    rewrite S in C. discriminate.
Qed.

Lemma chars_app_clean (x y : string) :
  PyStr.clean y = true ->
  PyStr.chars (x ++ y) = (PyStr.chars x ++ PyStr.chars y)%list.
Proof.
  intros C. induction x as [|a s E IH|w rest Hw IH] using chars_ind.
  - reflexivity.
  - change (String a s ++ y) with (String a (s ++ y)).
    rewrite (chars_other a (s ++ y)) by (apply (ws_prefix_app_clean a s y C E)).
    rewrite chars_other by assumption. simpl. now rewrite IH.
  - rewrite append_assoc, (chars_ws w (rest ++ y)), (chars_ws w rest)
      by assumption.
    cbn [app]. now rewrite IH.
Qed.

Lemma chars_flatten_spaces (L : list string) (y : string) :
  Forall (fun c => In c PyStr.whitespace) L ->
  PyStr.chars (PyStr.flatten L ++ y) = (L ++ PyStr.chars y)%list.
Proof.
  induction 1 as [|c L Hc _ IH]; [reflexivity|].
  simpl. rewrite append_assoc, chars_ws by assumption. now rewrite IH.
Qed.

Lemma all_space_Forall (w : string) :
  PyStr.all_space w = true ->
  Forall (fun c => In c PyStr.whitespace) (PyStr.chars w).
Proof.
  unfold PyStr.all_space. rewrite forallb_forall. intros H.
  apply Forall_forall. intros c Hc. apply is_space_In. now apply H.
Qed.

Lemma chars_app_space (w y : string) :
  PyStr.all_space w = true ->
  PyStr.chars (w ++ y) = (PyStr.chars w ++ PyStr.chars y)%list.
Proof.
  intros H. rewrite <- (flatten_chars w) at 1.
  now apply chars_flatten_spaces, all_space_Forall.
Qed.

Lemma all_space_clean (w y : string) :
  PyStr.all_space w = true -> w <> "" -> PyStr.clean (w ++ y) = true.
Proof.
  intros H Hne. pose proof (all_space_Forall _ H) as F.
  rewrite <- (flatten_chars w).
  destruct (PyStr.chars w) as [|c L] eqn:E.
  - exfalso. apply Hne. rewrite <- (flatten_chars w), E. reflexivity.
  - inversion F; subst. simpl. rewrite append_assoc.
    now apply clean_whitespace.
Qed.

(** *** Splitting at whitespace *)

Lemma split_go_no_space (A : list string) :
  forallb (fun c => negb (PyStr.is_space c)) A = true ->
  forall rest cur,
    PyStr.split_go (A ++ rest) cur = PyStr.split_go rest (cur ++ PyStr.flatten A).
Proof.
  induction A as [|c A IH]; simpl; intros H rest cur.
  - now rewrite append_empty_r.
  - apply andb_prop in H. destruct H as [Hc HA].
    apply negb_true_iff in Hc. rewrite Hc, (IH HA), append_assoc. reflexivity.
Qed.

Lemma split_go_space (W : list string) :
  forallb PyStr.is_space W = true ->
  forall rest, PyStr.split_go (W ++ rest) "" = PyStr.split_go rest "".
Proof.
  induction W as [|c W IH]; simpl; intros H rest; [reflexivity|].
  apply andb_prop in H. destruct H as [Hc HW]. rewrite Hc. now apply IH.
Qed.

Lemma split_go_space_cur (W : list string) :
  forallb PyStr.is_space W = true -> W <> [] ->
  forall rest cur, cur <> "" ->
    PyStr.split_go (W ++ rest) cur = cur :: PyStr.split_go rest "".
Proof.
  destruct W as [|c W]; [congruence|]. simpl. intros H _ rest cur Hcur.
  apply andb_prop in H. destruct H as [Hc HW]. rewrite Hc.
  destruct cur; [congruence|]. simpl. f_equal. now apply split_go_space.
Qed.

Lemma split_go_app_space (W : list string) :
  forallb PyStr.is_space W = true -> W <> [] ->
  forall X Y cur,
    PyStr.split_go (X ++ W ++ Y) cur
    = (PyStr.split_go X cur ++ PyStr.split_go Y "")%list.
Proof.
  intros HW Hne. induction X as [|c X IH]; intros Y cur.
  - cbn [app PyStr.split_go]. destruct cur as [|a cur].
    + now apply split_go_space.
    + rewrite split_go_space_cur by (auto; discriminate). reflexivity.
  - cbn [app PyStr.split_go]. destruct (PyStr.is_space c).
    + destruct (PyStr.is_empty cur); [apply IH|]. rewrite IH. reflexivity.
    + apply IH.
Qed.

Lemma chars_nonempty (s : string) : s <> "" -> PyStr.chars s <> [].
Proof.
  intros H E. apply H. rewrite <- (flatten_chars s), E. reflexivity.
Qed.

(** Whitespace between two parts separates their tokens. *)
Lemma split_ws_app_space (x w y : string) :
  PyStr.all_space w = true -> w <> "" ->
  PyStr.split_ws (x ++ w ++ y) = (PyStr.split_ws x ++ PyStr.split_ws y)%list.
Proof.
  intros Hw Hne. unfold PyStr.split_ws.
  rewrite chars_app_clean by (now apply all_space_clean).
  rewrite chars_app_space by assumption.
  apply split_go_app_space; [exact Hw | now apply chars_nonempty].
Qed.

Lemma split_ws_all_space (w : string) :
  PyStr.all_space w = true -> PyStr.split_ws w = [].
Proof.
  intros H. unfold PyStr.split_ws.
  rewrite <- (app_nil_r (PyStr.chars w)). now rewrite split_go_space.
Qed.

Lemma contains_tail (a : ascii) (s w : string) :
  PyStr.contains (String a s) w = false -> PyStr.contains s w = false.
Proof.
  change (PyStr.contains (String a s) w)
    with (String.prefix w (String a s) || PyStr.contains s w).
  intros H. apply orb_false_elim in H. now destruct H.
Qed.

Lemma contains_prefix (s w : string) :
  PyStr.contains s w = false -> String.prefix w s = false.
Proof.
  destruct s; simpl; intros H; apply orb_false_elim in H; now destruct H.
Qed.

(** None of the characters of a string without whitespace is one. *)
Lemma no_whitespace_chars (t : string) :
  forallb (fun w => negb (PyStr.contains t w)) PyStr.whitespace = true ->
  forallb (fun c => negb (PyStr.is_space c)) (PyStr.chars t) = true.
Proof.
  rewrite forallb_forall.
  induction t as [|a s E IH|w rest Hw IH] using chars_ind; intros H.
  - reflexivity.
  - rewrite chars_other by assumption. simpl.
    rewrite (byte_not_space a s E). simpl. apply IH.
    intros w Hw. specialize (H w Hw). apply negb_true_iff in H.
    apply negb_true_iff. now apply contains_tail in H.
  - exfalso. specialize (H w Hw). apply negb_true_iff in H.
    apply contains_prefix in H. rewrite prefix_append in H. discriminate.
Qed.

Lemma split_ws_token (t : string) :
  PyStr.is_token t = true -> PyStr.split_ws t = [t].
Proof.
  unfold PyStr.is_token, PyStr.split_ws. intros H.
  apply andb_prop in H. destruct H as [Hne Hns].
  rewrite <- (app_nil_r (PyStr.chars t)).
  rewrite split_go_no_space by (now apply no_whitespace_chars).
  simpl. rewrite flatten_chars. destruct t; [discriminate | reflexivity].
Qed.

(** Whitespace at the two ends changes nothing. *)
Lemma split_ws_pad (l s r : string) :
  PyStr.all_space l = true -> PyStr.all_space r = true ->
  PyStr.split_ws (l ++ s ++ r) = PyStr.split_ws s.
Proof.
  intros Hl Hr. unfold PyStr.split_ws.
  rewrite chars_app_space, split_go_space by assumption.
  destruct r as [|c r].
  - now rewrite append_empty_r.
  - rewrite <- (append_empty_r (String c r)).
    fold (PyStr.split_ws (s ++ String c r ++ "")).
    rewrite split_ws_app_space by (auto; discriminate).
    unfold PyStr.split_ws. simpl. apply app_nil_r.
Qed.

(** *** Trimming *)

Lemma lstrip_chars_spec (items : list string) :
  exists L,
    items = (L ++ PyStr.lstrip_chars items)%list /\
    forallb PyStr.is_space L = true /\
    match PyStr.lstrip_chars items with
    | [] => True
    | c :: _ => PyStr.is_space c = false
    end.
Proof.
  induction items as [|c items (L & E & HL & Hh)]; simpl.
  - now exists [].
  - destruct (PyStr.is_space c) eqn:C.
    + exists (c :: L). simpl. rewrite C, HL. repeat split; auto.
      now rewrite <- E.
    + exists []. simpl. repeat split. exact C.
Qed.

Lemma rstrip_chars_spec (items : list string) :
  exists R,
    items = (PyStr.rstrip_chars items ++ R)%list /\
    forallb PyStr.is_space R = true /\
    (PyStr.rstrip_chars items = [] \/
     exists M c, PyStr.rstrip_chars items = (M ++ [c])%list /\
                 PyStr.is_space c = false) /\
    match items, PyStr.rstrip_chars items with
    | c :: _, d :: _ => c = d
    | _, _ => True
    end.
Proof.
  induction items as [|c items (R & E & HR & HL & _)]; simpl.
  - exists []. repeat split; auto.
  - destruct (PyStr.rstrip_chars items) as [|d M'] eqn:Rs.
    + simpl in E. subst items. destruct (PyStr.is_space c) eqn:C.
      * exists (c :: R). simpl. rewrite C, HR. repeat split; auto.
      * exists R. repeat split; auto. right. exists [], c. now split.
    + exists R. rewrite E at 1. repeat split; auto.
      right. destruct HL as [HL | (M & x & HM & Hx)]; [discriminate|].
      exists (c :: M), x. rewrite HM. now split.
Qed.

Lemma is_suffix_split (w t : string) :
  PyStr.is_suffix w t = true -> exists u, t = u ++ w.
Proof.
  induction t as [|a t IH]; simpl; intros H.
  - apply orb_prop in H. destruct H as [H|H]; [|discriminate].
    apply String.eqb_eq in H. subst. now exists "".
  - apply orb_prop in H. destruct H as [H|H].
    + apply String.eqb_eq in H. subst. now exists "".
    + destruct (IH H) as [u ->]. now exists (String a u).
Qed.

(** The characters of a piece cut out between characters. *)
Lemma chars_tail (L K : list string) :
  forall s, PyStr.chars s = (L ++ K)%list -> PyStr.chars (PyStr.flatten K) = K.
Proof.
  induction L as [|c L IH]; intros s E.
  - simpl in E. now rewrite <- E, flatten_chars.
  - destruct s as [|a s]; [discriminate|].
    destruct (PyStr.ws_prefix (String a s)) as [w|] eqn:P.
    + destruct (ws_prefix_Some _ _ P) as [Hw Pf].
      rewrite (prefix_drop _ _ Pf), chars_ws in E by assumption.
      injection E as _ E. exact (IH _ E).
    + rewrite chars_other in E by assumption.
      injection E as _ E. exact (IH _ E).
Qed.

Lemma chars_middle (M R : list string) (s : string) :
  PyStr.chars s = (M ++ R)%list -> forallb PyStr.is_space R = true ->
  PyStr.chars (PyStr.flatten M) = M.
Proof.
  intros E HR. destruct R as [|c R].
  - rewrite app_nil_r in E. now rewrite <- E, flatten_chars.
  - assert (F : PyStr.chars (PyStr.flatten (M ++ c :: R)) = (M ++ c :: R)%list).
    { now rewrite <- E, flatten_chars. }
    rewrite flatten_app in F. simpl in HR.
    apply andb_prop in HR. destruct HR as [Hc HR].
    apply is_space_In in Hc.
    rewrite chars_app_clean in F by (simpl; now apply clean_whitespace).
    assert (G : PyStr.chars (PyStr.flatten (c :: R)) = c :: R).
    { rewrite <- (append_empty_r (PyStr.flatten (c :: R))).
      rewrite chars_flatten_spaces; [apply app_nil_r|].
      apply Forall_forall. intros x Hx. apply is_space_In.
      rewrite forallb_forall in HR. destruct Hx as [<- | Hx];
        [now apply is_space_In | now apply HR]. }
    rewrite G in F. now apply app_inv_tail in F.
Qed.

Lemma strip_chars (s : string) :
  exists L R,
    PyStr.chars s
    = (L ++ PyStr.rstrip_chars (PyStr.lstrip_chars (PyStr.chars s)) ++ R)%list /\
    forallb PyStr.is_space L = true /\ forallb PyStr.is_space R = true /\
    PyStr.chars (PyStr.strip s)
    = PyStr.rstrip_chars (PyStr.lstrip_chars (PyStr.chars s)).
Proof.
  destruct (lstrip_chars_spec (PyStr.chars s)) as (L & E & HL & _).
  destruct (rstrip_chars_spec (PyStr.lstrip_chars (PyStr.chars s)))
    as (R & E' & HR & _).
  exists L, R. split; [|split; [|split]]; auto.
  - now rewrite <- E'.
  - unfold PyStr.strip. apply (chars_middle _ R (PyStr.flatten
      (PyStr.lstrip_chars (PyStr.chars s)))); [|assumption].
    rewrite <- E'. exact (chars_tail L _ s E).
Qed.

Lemma spaces_all_space (L : list string) :
  forallb PyStr.is_space L = true -> PyStr.all_space (PyStr.flatten L) = true.
Proof.
  intros H. unfold PyStr.all_space.
  rewrite <- (append_empty_r (PyStr.flatten L)), chars_flatten_spaces.
  - now rewrite app_nil_r.
  - apply Forall_forall. intros x Hx. apply is_space_In.
    rewrite forallb_forall in H. now apply H.
Qed.

(** [strip] removes the whitespace characters at both ends and nothing
    else. *)
Lemma strip_trims (s : string) :
  exists l r,
    s = l ++ PyStr.strip s ++ r /\
    PyStr.all_space l = true /\ PyStr.all_space r = true /\
    PyStr.starts_with_space (PyStr.strip s) = false /\
    PyStr.ends_with_space (PyStr.strip s) = false.
Proof.
  destruct (strip_chars s) as (L & R & E & HL & HR & C).
  exists (PyStr.flatten L), (PyStr.flatten R).
  split; [|split; [|split; [|split]]].
  - rewrite <- (flatten_chars s) at 1. rewrite E, !flatten_app. reflexivity.
  - now apply spaces_all_space.
  - now apply spaces_all_space.
  - destruct (PyStr.starts_with_space (PyStr.strip s)) eqn:S; [|reflexivity].
    exfalso. unfold PyStr.starts_with_space in S. apply existsb_exists in S.
    destruct S as (w & Hw & P).
    rewrite (prefix_drop _ _ P), chars_ws in C by assumption.
    destruct (lstrip_chars_spec (PyStr.chars s)) as (L' & _ & _ & Hh).
    destruct (rstrip_chars_spec (PyStr.lstrip_chars (PyStr.chars s)))
      as (R' & _ & _ & _ & Hd).
    destruct (PyStr.lstrip_chars (PyStr.chars s)) as [|c l0];
      [discriminate|].
    destruct (PyStr.rstrip_chars (c :: l0)) as [|d l1]; [discriminate|].
    subst d. injection C as <- _. apply is_space_In in Hw. congruence.
  - destruct (PyStr.ends_with_space (PyStr.strip s)) eqn:S; [|reflexivity].
    exfalso. unfold PyStr.ends_with_space in S. apply existsb_exists in S.
    destruct S as (w & Hw & P). destruct (is_suffix_split _ _ P) as [u Hu].
    rewrite Hu in C.
    rewrite <- (append_empty_r w) in C.
    rewrite chars_app_clean, chars_ws in C
      by (try apply clean_whitespace; assumption).
    destruct (rstrip_chars_spec (PyStr.lstrip_chars (PyStr.chars s)))
      as (R' & _ & _ & [Hn | (M & c & HM & Hc)] & _).
    + rewrite Hn in C. destruct (PyStr.chars u); discriminate.
    + rewrite HM in C. simpl in C. apply app_inj_tail in C.
      destruct C as [_ <-]. apply is_space_In in Hw. congruence.
Qed.

Lemma split_ws_strip (line : string) :
  PyStr.split_ws (PyStr.strip line) = PyStr.split_ws line.
Proof.
  destruct (strip_chars line) as (L & R & E & HL & HR & C).
  unfold PyStr.split_ws. rewrite C. rewrite E at 2.
  rewrite split_go_space by assumption.
  destruct R as [|c R]; [now rewrite app_nil_r|].
  rewrite <- (app_nil_r (c :: R)), split_go_app_space by (auto; discriminate).
  simpl. now rewrite app_nil_r.
Qed.
(* ================================================================ *)
(** ** The page parser: what a row contributes *)

Lemma node_partition_0_Ok (n : node) (d : string) :
  node_partition_0 n = Ok d ->
  exists e p, n = NavigableString e /\ PyStr.partition e "@" = Ok p
              /\ d = fst (fst p).
Proof.
  destruct n as [e|nm cl cs]; simpl.
  - destruct (PyStr.partition e "@") as [p|x] eqn:P; simpl; [|discriminate].
    intros [= <-]. now exists e, p.
  - destruct (Soup.getattr_child "partition" cs); discriminate.
Qed.

(** A row leaves [info] as it is or appends one record to it. *)
Lemma parse_emails_row_Ok (info info' : list ContactInfo) (record : node) :
  parse_emails_row info record = Ok info' ->
  info' = info \/
  exists c, emitted_by record c /\ info' = (info ++ [c])%list.
Proof.
  unfold parse_emails_row, rbind.
  destruct (parse_record_email record) as [oe|] eqn:E; [|discriminate].
  destruct (parse_record_name record) as [n|] eqn:N; [|discriminate].
  destruct (parse_record_major record) as [m|] eqn:M; [|discriminate].
  destruct (parse_record_org record) as [o|] eqn:O; [|discriminate].
  destruct oe as [e|]; [|intros [= <-]; now left].
  destruct (Soup.truthy e) eqn:T; [|intros [= <-]; now left].
  destruct (node_partition_0 e) as [d|] eqn:D; [|discriminate].
  intros [= <-]. right.
  destruct (node_partition_0_Ok _ _ D) as (s & p & -> & P & ->).
  eexists; split; [|reflexivity].
  exists s, p. simpl. repeat split; auto.
  intros ->. discriminate.
Qed.

Lemma parse_emails_loop_Ok (records : list node) :
  forall info out,
    parse_emails_loop info records = Ok out ->
    forall c, In c out -> In c info \/ exists r, In r records /\ emitted_by r c.
Proof.
  induction records as [|r records IH]; intros info out; simpl.
  - intros [= <-] c Hc. now left.
  - unfold rbind.
    destruct (parse_emails_row info r) as [info'|] eqn:R; [|discriminate].
    intros L c Hc. destruct (IH _ _ L c Hc) as [Hin | (r' & Hr' & Hem)].
    + destruct (parse_emails_row_Ok _ _ _ R) as [-> | (c' & Hem & ->)].
      * now left.
      * apply in_app_or in Hin. destruct Hin as [Hin | [<- | []]].
        -- now left.
        -- right. exists r. split; [now left | assumption].
    + right. exists r'. split; [now right | assumption].
Qed.

(** Every record [parse_emails] returns was appended for a row of the
    page. *)
Lemma parse_emails_emitted (response : string) (info : list ContactInfo) :
  parse_emails response = Ok info ->
  forall c, In c info ->
    exists rows r,
      Soup.find_all "tr" "record-data" (BeautifulSoup response) = Ok rows /\
      In r rows /\ emitted_by r c.
Proof.
  unfold parse_emails, parse_emails_soup, rbind.
  destruct (Soup.find_all "tr" "record-data" (BeautifulSoup response))
    as [rows|] eqn:F; [|discriminate].
  intros L c Hc.
  destruct (parse_emails_loop_Ok _ _ _ L c Hc) as [[] | (r & Hr & Hem)].
  now exists rows, r.
Qed.

(* ================================================================ *)
(** ** Properties of the page parser *)

(** C2: for every ContactInfo that [parse_emails] returns, [email] is a
    text [e] and [dotname] is [e.split("@")[0]]; that is the whole of
    [e] when [e] has no [@], and otherwise the part of [e] before its
    first [@] (the part itself has no [@]). *)
Theorem dotname_is_email_prefix (response : string) (info : list ContactInfo)
        (c : ContactInfo) :
  parse_emails response = Ok info ->
  In c info ->
  exists e parts,
    email c = NavigableString e /\
    PyStr.split e "@" = Ok parts /\
    first parts = Ok (dotname c) /\
    ((PyStr.contains e "@" = false /\ dotname c = e) \/
     (exists rest, e = dotname c ++ "@" ++ rest /\
                   PyStr.contains (dotname c) "@" = false)).
Proof.
  intros L Hc.
  destruct (parse_emails_emitted _ _ L c Hc)
    as (rows & r & _ & _ & e & p & _ & _ & P & _ & _ & _ & He & Hd).
  destruct (partition_split_head _ _ _ P) as (parts & Hs & Hf).
  exists e, parts. rewrite Hd. repeat split; auto.
  unfold PyStr.partition in P. simpl in P.
  destruct (PyStr.cut e "@") as [[a b]|] eqn:C; injection P as <-; cbn [fst].
  - right. exists b. split.
    + now apply cut_Some.
    + now apply cut_char_before with (s := e) (b := b).
  - left. split; [now apply cut_None_contains | reflexivity].
Qed.

(** What [find_all] returns are elements. *)
Lemma select_is_tag (p : string -> list string -> bool) :
  forall (n x : node), In x (Soup.select p n) -> exists nm cl cs, x = Tag nm cl cs.
Proof.
  fix IH 1. intros [text|nm cl cs] x; cbn [Soup.select].
  - intros [].
  - intros H. apply in_app_or in H. destruct H as [H|H].
    + destruct (p nm cl); [|destruct H]. destruct H as [<- | []]. eauto.
    + induction cs as [|c cs IHcs]; [destruct H|].
      apply in_app_or in H. destruct H as [H|H].
      * exact (IH c x H).
      * exact (IHcs H).
Qed.

Lemma select_list_is_tag (p : string -> list string -> bool) (l : list node)
      (x : node) :
  In x (Soup.select_list p l) -> exists nm cl cs, x = Tag nm cl cs.
Proof.
  unfold Soup.select_list. intros H. apply in_flat_map in H.
  destruct H as (n & _ & H). exact (select_is_tag p n x H).
Qed.

Lemma find_all_first_is_tag (name cls : string) (n cell : node)
      (rest : list node) :
  Soup.find_all name cls n = Ok (cell :: rest) ->
  exists nm cl cs, cell = Tag nm cl cs.
Proof.
  destruct n as [text|nm cl cs]; cbn [Soup.find_all]; [discriminate|].
  intros [= H]. apply (select_list_is_tag (Soup.has_name_class name cls) cs).
  rewrite H. now left.
Qed.


(** On a row (an element) the major and the org extractors return. *)
Lemma parse_record_major_Ok (nm : string) (cl : list string) (cs : list node) :
  exists v, parse_record_major (Tag nm cl cs) = Ok v.
Proof.
  unfold parse_record_major, rbind.
  destruct (Soup.find_all "td" "record-data-major" (Tag nm cl cs))
    as [[|cell rest]|x] eqn:F; [eauto| |discriminate].
  destruct (find_all_first_is_tag _ _ _ _ _ F) as (n1 & c1 & k1 & ->).
  cbn [Soup.contents]. destruct k1; eauto.
Qed.

Lemma parse_record_org_Ok (nm : string) (cl : list string) (cs : list node) :
  exists v, parse_record_org (Tag nm cl cs) = Ok v.
Proof.
  unfold parse_record_org, rbind.
  destruct (Soup.find_all "td" "record-data-org" (Tag nm cl cs))
    as [[|cell rest]|x] eqn:F; [eauto| |discriminate].
  destruct (find_all_first_is_tag _ _ _ _ _ F) as (n1 & c1 & k1 & ->).
  cbn [Soup.contents]. destruct k1; eauto.
Qed.

Lemma find_all_Ok_is_tag (name cls : string) (n : node) (cells : list node) :
  Soup.find_all name cls n = Ok cells -> exists nm cl cs, n = Tag nm cl cs.
Proof. destruct n as [text|nm cl cs]; [discriminate | eauto]. Qed.

(** What a row does to [info], by what its email extractor returns. *)
Lemma parse_emails_row_no_email (info : list ContactInfo) (record : node) :
  parse_record_email record = Ok None \/
  parse_record_email record = Ok (Some (NavigableString "")) ->
  parse_emails_row info record
  = match parse_record_name record with
    | Ok _ => Ok info
    | Raise e => Raise e
    end.
Proof.
  intros H.
  assert (exists nm cl cs, record = Tag nm cl cs) as (nm & cl & cs & ->).
  { destruct record as [text|nm cl cs]; [|eauto].
    destruct H as [H|H]; discriminate H. }
  unfold parse_emails_row.
  destruct (parse_record_major_Ok nm cl cs) as [m M].
  destruct (parse_record_org_Ok nm cl cs) as [o O].
  rewrite M, O.
  destruct H as [-> | ->]; cbn [rbind];
    destruct (parse_record_name (Tag nm cl cs)); reflexivity.
Qed.

Lemma parse_emails_row_text_email (info : list ContactInfo) (record : node)
      (e : string) (m o : option node) :
  parse_record_email record = Ok (Some (NavigableString e)) ->
  e <> "" ->
  parse_record_major record = Ok m ->
  parse_record_org record = Ok o ->
  exists d,
    parse_emails_row info record
    = match parse_record_name record with
      | Ok n => Ok (info ++ [mkContactInfo n (NavigableString e) d m o])%list
      | Raise x => Raise x
      end.
Proof.
  intros E He M O. unfold parse_emails_row. rewrite E, M, O.
  destruct e as [|x e]; [congruence|].
  cbn [rbind Soup.truthy PyStr.is_empty negb node_partition_0].
  unfold PyStr.partition. cbn [PyStr.is_empty].
  destruct (PyStr.cut (String x e) "@") as [[a b]|]; eexists;
    destruct (parse_record_name record); reflexivity.
Qed.

Lemma parse_emails_row_tag_email (info : list ContactInfo) (record : node)
      (nm : string) (cl : list string) (cs : list node) :
  parse_record_email record = Ok (Some (Tag nm cl cs)) ->
  exists e, parse_emails_row info record = Raise e.
Proof.
  intros E.
  assert (exists n c k, record = Tag n c k) as (n & c & k & ->).
  { destruct record as [text|n c k]; [discriminate E | eauto]. }
  unfold parse_emails_row. rewrite E.
  destruct (parse_record_major_Ok n c k) as [m M].
  destruct (parse_record_org_Ok n c k) as [o O].
  rewrite M, O. cbn [rbind].
  destruct (parse_record_name (Tag n c k)); cbn [rbind]; [|eauto].
  cbn [Soup.truthy node_partition_0].
  destruct (Soup.getattr_child "partition" cs); cbn [rbind]; eauto.
Qed.

(** When the email extractor returns a text, the row has an email cell,
    the cell starts with an element and the element with that text. *)
Lemma parse_record_email_text (record : node) (e : string) :
  parse_record_email record = Ok (Some (NavigableString e)) ->
  exists cell rest first more more',
    Soup.find_all "td" "record-data-email" record = Ok (cell :: rest) /\
    Soup.contents cell = Ok (first :: more) /\
    Soup.contents first = Ok (NavigableString e :: more').
Proof.
  unfold parse_record_email, rbind. intros H.
  destruct (Soup.find_all "td" "record-data-email" record)
    as [[|cell rest]|]; try discriminate.
  destruct cell as [|nm cl [|link more]]; simpl in H; try discriminate.
  destruct link as [|nm' cl' [|child more']]; simpl in H; try discriminate.
  injection H as ->.
  exists (Tag nm cl (Tag nm' cl' (NavigableString e :: more') :: more)), rest,
         (Tag nm' cl' (NavigableString e :: more')), more, more'.
  repeat split.
Qed.


(* ================================================================ *)
(** ** Properties of the record extractor *)


Lemma select_list_app (p : string -> list string -> bool) (l1 l2 : list node) :
  Soup.select_list p (l1 ++ l2)
  = (Soup.select_list p l1 ++ Soup.select_list p l2)%list.
Proof. apply flat_map_app. Qed.

(** Once a cell is found, the elements after it do not change which cell
    is found first. *)
Lemma first_found_before (t c nm : string) (cl : list string)
      (before after : list node) :
  Soup.select_list (Soup.has_name_class t c) before <> [] ->
  first_found t c (Tag nm cl (before ++ after))
  = first_found t c (Tag nm cl before).
Proof.
  intros H. unfold first_found. simpl. rewrite select_list_app.
  destruct (Soup.select_list (Soup.has_name_class t c) before);
    [congruence | reflexivity].
Qed.


(* ================================================================ *)
(** ** Resolving the names *)

Lemma final_last {A : Type} (x d : A) (l : list A) :
  final (x :: l) = Ok (last (x :: l) d).
Proof.
  revert x; induction l as [|y l IH]; intros x; [reflexivity|].
  change (final (y :: l) = Ok (last (y :: l) d)). apply IH.
Qed.

Lemma tokens_pair_first_last (a z : string) (mid : list string) :
  tokens_pair (a :: mid ++ [z]) = [(a, z)].
Proof.
  destruct mid as [|x mid]; [reflexivity|].
  cbn [tokens_pair app]. change (x :: (mid ++ [z]))%list with ((x :: mid) ++ [z])%list.
  now rewrite last_last.
Qed.

Lemma name_arg_pair_tokens (s : string) (p : string * string) :
  tokens_pair (PyStr.split_ws s) = [p] -> name_arg_pair s = Ok p.
Proof.
  unfold name_arg_pair.
  destruct (PyStr.split_ws s) as [|a [|b rest]];
    cbn [tokens_pair List.length Nat.eqb first rbind]; try discriminate.
  - now intros [= <-].
  - intros [= <-]. now rewrite (final_last a "").
Qed.

Lemma batch_names_step (names : list (string * string)) (line : string)
      (rest : list string) :
  batch_names names (line :: rest)
  = batch_names (names ++ tokens_pair (PyStr.split_ws line))%list rest.
Proof.
  cbn [batch_names]. rewrite split_ws_strip.
  destruct (PyStr.split_ws line) as [|a [|b more]];
    cbn [tokens_pair List.length Nat.eqb Nat.ltb Nat.leb first rbind].
  - now rewrite app_nil_r.
  - reflexivity.
  - now rewrite (final_last a "").
Qed.

(** The batch loop appends the pairs of the lines, in the order of the
    lines, and never raises. *)
Lemma batch_names_closed (lines : list string) :
  forall names,
    batch_names names lines
    = Ok (names ++ flat_map (fun line => tokens_pair (PyStr.split_ws line))
                            lines)%list.
Proof.
  induction lines as [|line rest IH]; intros names.
  - simpl. now rewrite app_nil_r.
  - rewrite batch_names_step, IH. simpl. now rewrite app_assoc.
Qed.

(** C6: a name string with a single whitespace-separated token [t] gives
    the pair [("", t)], and one with several tokens gives the pair of
    its first and its last token; so do the three examples.  The tokens
    are what stands between whitespace characters, those of Unicode
    included: a token padded with whitespace is a single token, and two
    tokens around whitespace, with anything in between, are the first
    and the last token.  The lines of the batch file are split the same
    way: the loop over the lines returns the pairs it was given followed
    by the pairs of the lines, in the order of the lines, where a line
    gives the pair of its tokens by the same rule, and nothing when it is
    blank. *)
Theorem name_tokenization
        (s t a b : string) (more : list string)
        (l r w w' z mid : string)
        (names : list (string * string)) (line : string) (rest : list string)
        (lines : list string) :
  (PyStr.split_ws s = [t] -> name_arg_pair s = Ok ("", t)) /\
  (PyStr.split_ws s = a :: b :: more ->
   name_arg_pair s = Ok (a, last (b :: more) "")) /\
  name_arg_pair "Jane Doe" = Ok ("Jane", "Doe") /\
  name_arg_pair "Doe" = Ok ("", "Doe") /\
  name_arg_pair "Jane Middle Doe" = Ok ("Jane", "Doe") /\
  name_arg_pair ("Jane" ++ NBSP ++ "Doe" ++ IDSP) = Ok ("Jane", "Doe") /\
  name_arg_pair ("Ren" ++ E_ACUTE ++ " Doe") = Ok ("Ren" ++ E_ACUTE, "Doe") /\
  (PyStr.is_token t = true ->
   PyStr.all_space l = true -> PyStr.all_space r = true ->
   name_arg_pair (l ++ t ++ r) = Ok ("", t)) /\
  (PyStr.is_token a = true -> PyStr.is_token z = true ->
   PyStr.all_space w = true -> w <> "" ->
   name_arg_pair (a ++ w ++ z) = Ok (a, z) /\
   (PyStr.all_space w' = true -> w' <> "" ->
    name_arg_pair (a ++ w ++ mid ++ w' ++ z) = Ok (a, z))) /\
  batch_names names lines
  = Ok (names ++ flat_map (fun line => tokens_pair (PyStr.split_ws line))
                          lines)%list /\
  (PyStr.split_ws line = [t] ->
   tokens_pair (PyStr.split_ws line) = [("", t)] /\
   batch_names names (line :: rest) = batch_names (names ++ [("", t)]) rest) /\
  (PyStr.split_ws line = a :: b :: more ->
   tokens_pair (PyStr.split_ws line) = [(a, last (b :: more) "")] /\
   batch_names names (line :: rest)
   = batch_names (names ++ [(a, last (b :: more) "")]) rest) /\
  (PyStr.all_space line = true ->
   tokens_pair (PyStr.split_ws line) = [] /\
   batch_names names (line :: rest) = batch_names names rest) /\
  (forall p, tokens_pair (PyStr.split_ws s) = [p] <-> name_arg_pair s = Ok p).
Proof.
  split; [|split; [|split; [|split; [|split; [|split; [|split; [|split;
    [|split; [|split; [|split; [|split; [|split]]]]]]]]]]]].
  - intros H. apply name_arg_pair_tokens. now rewrite H.
  - intros H. apply name_arg_pair_tokens. now rewrite H.
  - reflexivity.
  - reflexivity.
  - reflexivity.
  - reflexivity.
  - reflexivity.
  - intros Ht Hl Hr. apply name_arg_pair_tokens.
    now rewrite split_ws_pad, split_ws_token.
  - intros Ha Hz Hw Hne. split.
    + apply name_arg_pair_tokens.
      rewrite split_ws_app_space, !split_ws_token by assumption. reflexivity.
    + intros Hw' Hne'. apply name_arg_pair_tokens.
      rewrite split_ws_app_space, split_ws_app_space,
        (split_ws_token a), (split_ws_token z) by assumption.
      cbn [app]. apply tokens_pair_first_last.
  - apply batch_names_closed.
  - intros H. split; [now rewrite H|]. now rewrite batch_names_step, H.
  - intros H. split; [now rewrite H|]. now rewrite batch_names_step, H.
  - intros H. rewrite batch_names_step, split_ws_all_space by assumption.
    split; [reflexivity|]. simpl. now rewrite app_nil_r.
  - intros p. split; [apply name_arg_pair_tokens|].
    unfold name_arg_pair.
    destruct (PyStr.split_ws s) as [|x [|y tail]];
      cbn [tokens_pair List.length Nat.eqb first rbind]; try discriminate.
    + now intros [= <-].
    + rewrite (final_last x ""). now intros [= <-].
Qed.

(* ================================================================ *)
(** ** The query client *)

Lemma valid_category_In (category : string) :
  valid_category category = true <-> In category [ALL; STUDENT; EMPLOYEE].
Proof.
  unfold valid_category. rewrite !orb_true_iff, !String.eqb_eq. simpl.
  split.
  - intros [[-> | ->] | ->]; auto.
  - intros [<- | [<- | [<- | []]]]; auto.
Qed.

(** C4: [do_request] raises [InvalidRequest] exactly when the category is
    not one of all, student, employee, and then the world is untouched
    (nothing was sent).  With a valid category one request is sent, and
    when the server answers it, [do_request] raises [RequestFailure]
    exactly when the status is not 200, with the status in the message,
    and returns the body otherwise. *)
Theorem do_request_outcomes
        (firstname lastname dot_name category : string) (w : world float)
        (resp : response) :
  ((exists msg, fst (do_request firstname lastname dot_name category w)
                = Raise (InvalidRequest msg))
   <-> ~ In category [ALL; STUDENT; EMPLOYEE]) /\
  (~ In category [ALL; STUDENT; EMPLOYEE] ->
   snd (do_request firstname lastname dot_name category w) = w) /\
  (In category [ALL; STUDENT; EMPLOYEE] ->
   trace (snd (do_request firstname lastname dot_name category w))
   = (trace w ++ [EvPost (clock w)
                         (mkForm category firstname lastname dot_name)])%list) /\
  (In category [ALL; STUDENT; EMPLOYEE] ->
   server (posts w) (mkForm category firstname lastname dot_name) = Some resp ->
   ((exists msg, fst (do_request firstname lastname dot_name category w)
                 = Raise (RequestFailure msg))
    <-> status_code resp <> 200%Z) /\
   (status_code resp <> 200%Z ->
    fst (do_request firstname lastname dot_name category w)
    = Raise (RequestFailure
               ("Bad status code: " ++ PyStr.of_Z (status_code resp)))) /\
   (status_code resp = 200%Z ->
    fst (do_request firstname lastname dot_name category w)
    = Ok (content resp))).
Proof.
  pose proof (valid_category_In category) as V.
  unfold do_request, bind, requests_post, raise, ret.
  destruct (valid_category category) eqn:E; cbn [fst snd negb].
  - assert (Hin : In category [ALL; STUDENT; EMPLOYEE]) by now apply V.
    split; [|split; [|split]].
    + split.
      * intros [msg H]. exfalso.
        destruct (server (posts w) _) as [r|]; simpl in H; [|discriminate].
        destruct (Z.eqb (status_code r) 200); discriminate.
      * intros Hn. exfalso. exact (Hn Hin).
    + intros Hn. exfalso. exact (Hn Hin).
    + intros _. destruct (server (posts w) _) as [r|]; simpl; [|reflexivity].
      destruct (Z.eqb (status_code r) 200); reflexivity.
    + intros _ ->. simpl.
      destruct (Z.eqb_spec (status_code resp) 200) as [Hs|Hs]; simpl.
      * split; [split|split].
        -- intros [msg H]. discriminate.
        -- intros Hne. exfalso. exact (Hne Hs).
        -- intros Hne. exfalso. exact (Hne Hs).
        -- intros _. reflexivity.
      * split; [split|split].
        -- intros _. exact Hs.
        -- intros _. eexists; reflexivity.
        -- intros _. reflexivity.
        -- intros Heq. exfalso. exact (Hs Heq).
  - assert (Hin : ~ In category [ALL; STUDENT; EMPLOYEE]).
    { intros H. apply V in H. discriminate. }
    split; [|split; [|split]].
    + split; [intros _; exact Hin | intros _; eexists; reflexivity].
    + intros _. reflexivity.
    + intros H. exfalso. exact (Hin H).
    + intros H. exfalso. exact (Hin H).
Qed.

(* ================================================================ *)
(** ** The driver: one query *)

Lemma time_time_spec (w : world float) :
  time_time w
  = (Ok (next_reading w),
     mkWorld (next_reading w) (tl (readings w)) (posts w) (trace w)).
Proof. destruct w as [c [|t rs] p tr]; reflexivity. Qed.

Lemma write_info_spec (info : list ContactInfo) :
  forall w : world float,
    write_info info w
    = (Ok tt,
       mkWorld (clock w) (readings w) (posts w)
               (trace w ++ flat_map record_events info)%list).
Proof.
  induction info as [|i info IH]; intros w.
  - simpl. unfold ret. rewrite app_nil_r. now destruct w.
  - cbn [write_info]. unfold bind, output_write, output_flush, emit.
    rewrite IH. simpl. now rewrite <- !app_assoc.
Qed.

Lemma err_spec (msg : string) (w : world float) :
  err msg w
  = (Ok tt, mkWorld (clock w) (readings w) (posts w)
                    (trace w ++ [EvStderr (err_message msg)])%list).
Proof. reflexivity. Qed.

Lemma report_events_output (name : string * string) (info : list ContactInfo) :
  forallb is_output (report_events name info) = true.
Proof.
  unfold report_events. rewrite forallb_app. apply andb_true_intro. split.
  - induction info; simpl; auto.
  - destruct info; reflexivity.
Qed.

(** The part of the loop body that follows the pacing: it reads the
    clock, posts the form of the name, and writes what it finds. *)
Lemma query_send_outcome (name : string * string) (w : world float) :
  exists w',
    (start_time <- time_time ;;
     data <- do_request (fst name) (snd name) "" ALL ;;
     info <- lift (parse_emails data) ;;
     write_info info ;;
     match info with
     | [] => err ("Failed to find record for name: " ++ repr_pair name)
     | _ :: _ => ret tt
     end ;;
     ret start_time) w
    = (match query_outcome (posts w) name with
       | Ok _ => Ok (next_reading w)
       | Raise e => Raise e
       end, w') /\
    posts w' = S (posts w) /\
    trace w'
    = (trace w ++
       EvPost (next_reading w) (form_of_name name) ::
       match query_outcome (posts w) name with
       | Ok info => report_events name info
       | Raise _ => []
       end)%list.
Proof.
  unfold bind at 1. rewrite time_time_spec.
  unfold bind at 1. unfold do_request.
  change (valid_category ALL) with true. cbn [negb].
  unfold bind at 1. unfold requests_post. cbn [clock readings posts trace].
  unfold query_outcome.
  change (mkForm ALL (fst name) (snd name) "") with (form_of_name name).
  destruct (server (posts w) (form_of_name name)) as [resp|].
  - destruct (Z.eqb (status_code resp) 200); cbn [negb].
    + unfold ret at 1. unfold bind at 1. unfold lift.
      destruct (parse_emails (content resp)) as [info|e].
      * unfold bind at 1. rewrite write_info_spec.
        cbn [clock readings posts trace]. unfold bind at 1.
        unfold report_events.
        destruct info as [|i info].
        -- rewrite err_spec. unfold ret. eexists. split; [reflexivity|].
           cbn [posts trace flat_map app]. split; [reflexivity|].
           rewrite app_nil_r, <- app_assoc. reflexivity.
        -- unfold ret. eexists. split; [reflexivity|].
           cbn [posts trace]. split; [reflexivity|].
           rewrite app_nil_r, <- app_assoc. reflexivity.
      * eexists. split; [reflexivity|]. cbn [posts trace]. now split.
    + unfold raise. eexists. split; [reflexivity|]. cbn [posts trace].
      now split.
  - eexists. split; [reflexivity|]. cbn [posts trace]. now split.
Qed.

(** One turn of the loop.  Its pacing raises [OverflowError] before
    anything is sent, or the turn sleeps at most once, posts the form of
    the name and ends by the outcome of its query. *)
Lemma query_step_outcome (ratelimit : Z) (st : float) (name : string * string)
      (w : world float) :
  (exists w',
      query_step ratelimit st name w = (Raise OverflowError, w') /\
      posts w' = posts w /\ trace w' = trace w) \/
  (exists t sl w',
      query_step ratelimit st name w
      = (match query_outcome (posts w) name with
         | Ok _ => Ok t
         | Raise e => Raise e
         end, w') /\
      posts w' = S (posts w) /\
      trace w'
      = (trace w ++ sl ++
         EvPost t (form_of_name name) ::
         match query_outcome (posts w) name with
         | Ok info => report_events name info
         | Raise _ => []
         end)%list /\
      (sl = [] \/
       exists d, sl = [EvSleep d] /\
                 positive d = true /\ sleep_overflows d = false)).
Proof.
  remember (query_step ratelimit st name w) as q eqn:Hq.
  unfold query_step in Hq. unfold bind at 1 in Hq. unfold int_as_float in Hq.
  destruct (float_of_int ratelimit) as [r|];
    [|left; exists w; subst q; split; [reflexivity | split; reflexivity]].
  unfold bind at 1 in Hq. rewrite time_time_spec in Hq.
  unfold bind at 1 in Hq.
  destruct (positive (fsub (fadd st r) (next_reading w))) eqn:Pd.
  - unfold time_sleep in Hq.
    destruct (sleep_overflows (fsub (fadd st r) (next_reading w))) eqn:So.
    + left. eexists. subst q. split; [reflexivity | split; reflexivity].
    + right.
      destruct (query_send_outcome name
                  (emit (EvSleep (fsub (fadd st r) (next_reading w)))
                        (mkWorld (next_reading w) (tl (readings w))
                                 (posts w) (trace w))))
        as (w' & E & P & Tr).
      eexists. exists [EvSleep (fsub (fadd st r) (next_reading w))], w'.
      subst q. cbn [emit posts trace clock readings] in *.
      split; [exact E|]. split; [exact P|]. split.
      * rewrite Tr, <- app_assoc. reflexivity.
      * right. eexists. split; [reflexivity | now split].
  - right. unfold ret at 1 in Hq.
    destruct (query_send_outcome name
                (mkWorld (next_reading w) (tl (readings w)) (posts w) (trace w)))
      as (w' & E & P & Tr).
    eexists. exists [], w'. subst q. cbn [posts trace] in *.
    split; [exact E|]. split; [exact P|]. split; [exact Tr | now left].
Qed.

(** One turn of the loop, for a rate limit that converts to the float
    [r], when the clock reads [now] and then [t]: the turn waits as the
    Pacer says and stamps its request with [t]; or its sleep raises. *)
Lemma query_step_paced (ratelimit : Z) (st : float) (name : string * string)
      (w : world float) (r now t : float) (rs : list float) :
  float_of_int ratelimit = Some r ->
  readings w = now :: t :: rs ->
  (positive (remaining r st now) = true ->
   sleep_overflows (remaining r st now) = true ->
   query_step ratelimit st name w
   = (Raise OverflowError, mkWorld now (t :: rs) (posts w) (trace w))) /\
  (positive (remaining r st now) = false \/
   sleep_overflows (remaining r st now) = false ->
   exists w',
     query_step ratelimit st name w
     = (match query_outcome (posts w) name with
        | Ok _ => Ok t
        | Raise e => Raise e
        end, w') /\
     posts w' = S (posts w) /\
     trace w'
     = (trace w ++ wait_events r st now ++
        EvPost t (form_of_name name) ::
        match query_outcome (posts w) name with
        | Ok info => report_events name info
        | Raise _ => []
        end)%list).
Proof.
  intros Fr Rd.
  assert (N : next_reading w = now) by (unfold next_reading; now rewrite Rd).
  assert (Tl : tl (readings w) = t :: rs) by now rewrite Rd.
  remember (query_step ratelimit st name w) as q eqn:Hq.
  unfold query_step in Hq. unfold bind at 1 in Hq. unfold int_as_float in Hq.
  rewrite Fr in Hq.
  unfold bind at 1 in Hq. rewrite time_time_spec, N, Tl in Hq.
  unfold bind at 1 in Hq. unfold wait_events, remaining.
  destruct (positive (fsub (fadd st r) now)) eqn:Pd.
  - unfold time_sleep in Hq.
    destruct (sleep_overflows (fsub (fadd st r) now)) eqn:So.
    + split; [intros _ _; now subst q|].
      intros [H|H]; discriminate H.
    + split; [intros _ H; discriminate H|]. intros _.
      destruct (query_send_outcome name
                  (emit (EvSleep (fsub (fadd st r) now))
                        (mkWorld now (t :: rs) (posts w) (trace w))))
        as (w' & E & P & Tr).
      exists w'. subst q.
      cbn [emit posts trace clock readings next_reading] in *.
      split; [exact E|]. split; [exact P|].
      rewrite Tr, <- app_assoc. reflexivity.
  - split; [intros H; discriminate H|]. intros _.
    unfold ret at 1 in Hq.
    destruct (query_send_outcome name
                (mkWorld now (t :: rs) (posts w) (trace w)))
      as (w' & E & P & Tr).
    exists w'. subst q. cbn [posts trace readings next_reading] in *.
    split; [exact E|]. split; [exact P | exact Tr].
Qed.

(* ================================================================ *)
(** ** The driver: the whole run *)

Lemma forms_sent_app (a b : list (event float)) :
  forms_sent (a ++ b) = (forms_sent a ++ forms_sent b)%list.
Proof. apply flat_map_app. Qed.

Lemma untimed_app (a b : list (event float)) :
  untimed (a ++ b) = (untimed a ++ untimed b)%list.
Proof. apply flat_map_app. Qed.

Lemma posted_app (a b : list action) :
  posted (a ++ b) = (posted a ++ posted b)%list.
Proof. apply flat_map_app. Qed.

Lemma forms_sent_untimed (evs : list (event float)) :
  forms_sent evs = posted (untimed evs).
Proof.
  induction evs as [|ev evs IH]; [reflexivity|].
  change (ev :: evs) with ([ev] ++ evs)%list.
  rewrite forms_sent_app, untimed_app, posted_app, IH.
  destruct ev; reflexivity.
Qed.

Lemma untimed_sleep (sl : list (event float)) :
  sl = [] \/
  (exists d, sl = [EvSleep d] /\
             positive d = true /\ sleep_overflows d = false) ->
  untimed sl = [].
Proof. intros [-> | (d & -> & _)]; reflexivity. Qed.

Lemma turns_turn (sl out rest : list (event float)) (t : float)
      (f : form_data) :
  sl = [] \/
  (exists d, sl = [EvSleep d] /\
             positive d = true /\ sleep_overflows d = false) ->
  forallb is_output out = true ->
  turns rest ->
  turns (sl ++ EvPost t f :: out ++ rest)%list.
Proof.
  intros [-> | (d & -> & Pd & So)] Ho Hr.
  - now apply turns_now.
  - now apply turns_sleep.
Qed.

Lemma untimed_report (name : string * string) (info : list ContactInfo) :
  untimed (report_events name info) = report_actions name info.
Proof.
  unfold report_events, report_actions. rewrite untimed_app. f_equal.
  - induction info as [|i info IH]; [reflexivity|].
    cbn [flat_map]. rewrite untimed_app, IH. reflexivity.
  - destruct info; reflexivity.
Qed.

Lemma posted_report (name : string * string) (info : list ContactInfo) :
  posted (report_actions name info) = [].
Proof.
  unfold report_actions. rewrite posted_app.
  assert (H : posted (flat_map record_actions info) = []).
  { induction info as [|i info IH]; [reflexivity|]. exact IH. }
  rewrite H. destruct info; reflexivity.
Qed.

Lemma posted_run_script (names : list (string * string)) :
  forall n,
    posted (run_script n names) = map form_of_name (run_queried n names).
Proof.
  induction names as [|name names IH]; intros n; [reflexivity|].
  cbn [run_script run_queried].
  change (Post (form_of_name name) ::
          match query_outcome n name with
          | Ok info => (report_actions name info
                        ++ run_script (S n) names)%list
          | Raise _ => []
          end)
    with ([Post (form_of_name name)] ++
          match query_outcome n name with
          | Ok info => (report_actions name info
                        ++ run_script (S n) names)%list
          | Raise _ => []
          end)%list.
  rewrite posted_app.
  destruct (query_outcome n name) as [info|e]; [|reflexivity].
  rewrite posted_app, posted_report, IH. reflexivity.
Qed.

(** The names queried are an initial part of the list, and the whole
    list when no query fails. *)
Lemma run_queried_split (names : list (string * string)) :
  forall n,
    exists rest,
      names = (run_queried n names ++ rest)%list /\
      (run_result n names = Ok tt -> rest = []).
Proof.
  induction names as [|name names IH]; intros n.
  - now exists [].
  - cbn [run_queried run_result].
    destruct (query_outcome n name) as [info|e].
    + destruct (IH (S n)) as (rest & E & H). exists rest.
      split; [|exact H]. cbn [app]. now rewrite <- E.
    + exists names. split; [reflexivity | discriminate].
Qed.

Lemma run_ok_queried (names : list (string * string)) :
  forall n, run_result n names = Ok tt -> run_queried n names = names.
Proof.
  induction names as [|name names IH]; intros n; [reflexivity|].
  cbn [run_queried run_result].
  destruct (query_outcome n name) as [info|e]; [|discriminate].
  intros H. now rewrite (IH _ H).
Qed.

(** The query loop, by the outcomes of its queries.  Either no pacing
    raises, and the loop stops at the first query that fails, with its
    exception; or the pacing of some turn raises [OverflowError] after
    the queries of the names before it have succeeded. *)
Lemma query_loop_outcome (ratelimit : Z) (names : list (string * string)) :
  forall (st : float) (w : world float),
  exists evs w' r,
    query_loop ratelimit st names w = (r, w') /\
    trace w' = (trace w ++ evs)%list /\
    turns evs /\
    ((r = run_result (posts w) names /\
      untimed evs = run_script (posts w) names) \/
     (r = Raise OverflowError /\
      exists done rest,
        names = (done ++ rest)%list /\ rest <> [] /\
        run_result (posts w) done = Ok tt /\
        untimed evs = run_script (posts w) done)).
Proof.
  induction names as [|name names IH]; intros st w.
  - exists [], w, (Ok tt). cbn [query_loop]. unfold ret. rewrite app_nil_r.
    split; [reflexivity|]. split; [reflexivity|].
    split; [constructor|]. left. now split.
  - cbn [query_loop]. unfold bind.
    destruct (query_step_outcome ratelimit st name w)
      as [(w1 & E & P & Tr) | (t & sl & w1 & E & P & Tr & S1)]; rewrite E.
    + exists [], w1, (Raise OverflowError). rewrite app_nil_r.
      split; [reflexivity|]. split; [exact Tr|].
      split; [constructor|]. right.
      split; [reflexivity|]. exists [], (name :: names).
      split; [reflexivity|]. split; [discriminate|]. now split.
    + pose proof (untimed_sleep sl S1) as Us.
      cbn [run_result run_script].
      destruct (query_outcome (posts w) name) as [info|e] eqn:Q.
      * destruct (IH t w1) as (evs & w' & r & E' & T' & Ht & H).
        rewrite P in H.
        exists (sl ++ EvPost t (form_of_name name) :: report_events name info
                ++ evs)%list, w', r.
        split; [exact E'|]. split.
        { rewrite T', Tr, <- !app_assoc. reflexivity. }
        split.
        { apply turns_turn; [exact S1 | apply report_events_output | exact Ht]. }
        assert (U : forall acts,
                   untimed evs = acts ->
                   untimed (sl ++ EvPost t (form_of_name name)
                               :: report_events name info ++ evs)
                   = Post (form_of_name name)
                     :: (report_actions name info ++ acts)%list).
        { intros acts <-. rewrite untimed_app, Us.
          change (EvPost t (form_of_name name) :: report_events name info ++ evs)%list
            with ([EvPost t (form_of_name name)]
                  ++ report_events name info ++ evs)%list.
          rewrite untimed_app, untimed_app, untimed_report. reflexivity. }
        destruct H as [[Hr Hu] | (Hr & done & rest & Hn & Hne & Hd & Hu)].
        -- left. split; [exact Hr | now apply U].
        -- right. split; [exact Hr|]. exists (name :: done), rest.
           split; [now rewrite Hn|]. split; [exact Hne|].
           cbn [run_result run_script]. rewrite Q.
           split; [exact Hd | now apply U].
      * exists (sl ++ [EvPost t (form_of_name name)])%list, w1, (Raise e).
        split; [reflexivity|]. split; [exact Tr|].
        split.
        { apply (turns_turn sl [] [] t (form_of_name name) S1 eq_refl).
          constructor. }
        left.
        split; [reflexivity|]. rewrite untimed_app, Us. reflexivity.
Qed.

Lemma main_resolve_raises (args : Namespace) (e : exn) (w : world float) :
  args_file args = None ->
  resolve_names args = Raise e ->
  main args w = (Raise e, w).
Proof.
  intros Hfile Hres. unfold main. rewrite Hfile.
  unfold bind, lift. now rewrite Hres.
Qed.

(** [main] in online mode, by the outcomes of its queries.  When the rate
    limit does not convert to a float, [main] raises after reading the
    clock.  Otherwise the diagnostic for an empty list of names comes
    first and then the query loop. *)
Lemma main_online_outcome (args : Namespace) (names : list (string * string))
      (w : world float) :
  args_file args = None ->
  resolve_names args = Ok names ->
  exists evs w' r,
    main args w = (r, w') /\
    trace w' = (trace w ++ evs)%list /\
    (names <> [] -> turns evs) /\
    ((float_of_int (args_ratelimit args) = None /\
      r = Raise OverflowError /\ evs = [] /\ posts w' = posts w) \/
     (float_of_int (args_ratelimit args) <> None /\
      ((r = run_result (posts w) names /\
        untimed evs
        = (no_name_actions names ++ run_script (posts w) names)%list) \/
       (r = Raise OverflowError /\
        exists done rest,
          names = (done ++ rest)%list /\ rest <> [] /\
          run_result (posts w) done = Ok tt /\
          untimed evs = run_script (posts w) done)))).
Proof.
  intros Hfile Hres. unfold main. rewrite Hfile.
  unfold bind at 1. unfold lift. rewrite Hres. unfold bind at 1.
  rewrite time_time_spec.
  unfold bind at 1. unfold int_as_float.
  destruct (float_of_int (args_ratelimit args)) as [r|] eqn:Fr.
  - destruct names as [|name names].
    + unfold bind. rewrite err_spec. cbn [query_loop]. unfold ret.
      do 3 eexists. split; [reflexivity|]. cbn [trace posts].
      split; [reflexivity|]. split; [intros H; now contradiction H|].
      right. split; [discriminate|]. left. split; reflexivity.
    + unfold bind at 1. unfold ret at 1.
      destruct (query_loop_outcome (args_ratelimit args) (name :: names)
                  (fsub (next_reading w) r)
                  (mkWorld (next_reading w) (tl (readings w))
                           (posts w) (trace w)))
        as (evs & w' & res & E' & T' & Ht & H).
      exists evs, w', res. cbn [posts trace] in *.
      split; [exact E'|]. split; [exact T'|]. split; [intros _; exact Ht|].
      right. split; [discriminate|]. exact H.
  - do 3 eexists. split; [reflexivity|]. cbn [trace posts].
    split; [symmetry; apply app_nil_r|]. split; [intros _; constructor|].
    left. repeat split.
Qed.

Lemma posted_no_name (names : list (string * string)) :
  posted (no_name_actions names) = [].
Proof. destruct names; reflexivity. Qed.

(** The forms an online run posts are those of an initial part of the
    resolved names, in order, and of all of them when [main] returns. *)
Lemma main_online_forms (args : Namespace) (names : list (string * string))
      (w : world float) :
  args_file args = None ->
  resolve_names args = Ok names ->
  exists evs done rest,
    trace (snd (main args w)) = (trace w ++ evs)%list /\
    names = (done ++ rest)%list /\
    forms_sent evs = map form_of_name done /\
    (fst (main args w) = Ok tt -> rest = []).
Proof.
  intros Hfile Hres.
  destruct (main_online_outcome args names w Hfile Hres)
    as (evs & w' & r & E & Tr & _ & H).
  rewrite E. cbn [fst snd].
  destruct H as [(_ & -> & -> & _) |
                 (_ & [[-> Hu] | (-> & done & rest & Hn & _ & Hd & Hu)])].
  - exists [], [], names. split; [exact Tr|]. split; [reflexivity|].
    split; [reflexivity | discriminate].
  - destruct (run_queried_split names (posts w)) as (rest & Hn & Hr).
    exists evs, (run_queried (posts w) names), rest.
    split; [exact Tr|]. split; [exact Hn|]. split; [|exact Hr].
    rewrite forms_sent_untimed, Hu, posted_app, posted_no_name.
    apply posted_run_script.
  - exists evs, done, rest.
    split; [exact Tr|]. split; [exact Hn|]. split; [|discriminate].
    rewrite forms_sent_untimed, Hu, posted_run_script.
    now rewrite (run_ok_queried _ _ Hd).
Qed.

(* ================================================================ *)
(** ** The driver: pacing *)

(** [main] hands the loop the clock read at startup minus the rate
    limit. *)
Lemma main_starts_loop (args : Namespace) (name : string * string)
      (names : list (string * string)) (w : world float) (r : float) :
  args_file args = None ->
  resolve_names args = Ok (name :: names) ->
  float_of_int (args_ratelimit args) = Some r ->
  main args w
  = query_loop (args_ratelimit args) (fsub (next_reading w) r) (name :: names)
      (mkWorld (next_reading w) (tl (readings w)) (posts w) (trace w)).
Proof.
  intros Hfile Hres Fr. unfold main. rewrite Hfile.
  unfold bind at 1. unfold lift. rewrite Hres. unfold bind at 1.
  rewrite time_time_spec. unfold bind at 1. unfold int_as_float. rewrite Fr.
  reflexivity.
Qed.

(** What the loop does first. *)
Lemma query_loop_first (ratelimit : Z) (st : float) (name : string * string)
      (names : list (string * string)) (w : world float) (r now t : float)
      (rs : list float) :
  float_of_int ratelimit = Some r ->
  readings w = now :: t :: rs ->
  positive (remaining r st now) = false \/
  sleep_overflows (remaining r st now) = false ->
  exists evs,
    trace (snd (query_loop ratelimit st (name :: names) w))
    = (trace w ++ wait_events r st now
       ++ EvPost t (form_of_name name) :: evs)%list.
Proof.
  intros Fr Rd H.
  destruct (query_step_paced ratelimit st name w r now t rs Fr Rd) as [_ Hs].
  destruct (Hs H) as (w' & E & _ & Tr).
  cbn [query_loop]. unfold bind. rewrite E.
  destruct (query_outcome (posts w) name) as [info|e].
  - destruct (query_loop_outcome ratelimit names t w')
      as (evs & w'' & res & E' & T' & _).
    rewrite E'. cbn [snd]. rewrite T', Tr.
    exists (report_events name info ++ evs)%list.
    rewrite <- !app_assoc. reflexivity.
  - cbn [snd]. rewrite Tr. now exists [].
Qed.


Lemma resolve_names_closed (args : Namespace) (s : string) (lines : list string)
      (p : string * string) :
  args_name args = Some s ->
  args_batch args = Some (lines, None) ->
  tokens_pair (PyStr.split_ws s) = [p] ->
  resolve_names args
  = Ok (p :: flat_map (fun line => tokens_pair (PyStr.split_ws line)) lines).
Proof.
  intros Hn Hb Hp. unfold resolve_names. rewrite Hn, Hb.
  destruct s as [|c s]; [discriminate|]. cbn [PyStr.is_empty].
  rewrite (name_arg_pair_tokens _ _ Hp). cbn [rbind].
  now rewrite batch_names_closed.
Qed.

(** An exception that stops the reading of the batch file is the result
    of resolving the names, unless [--name] is blank. *)
Lemma resolve_names_batch_raises (args : Namespace) (lines : list string)
      (e : exn) :
  args_batch args = Some (lines, Some e) ->
  (forall s, args_name args = Some s -> s <> "" -> PyStr.split_ws s <> []) ->
  resolve_names args = Raise e.
Proof.
  intros Hb Hname. unfold resolve_names. rewrite Hb.
  destruct (args_name args) as [s|].
  - destruct s as [|c s]; cbn [PyStr.is_empty].
    + cbn [rbind]. now rewrite batch_names_closed.
    + assert (exists p, tokens_pair (PyStr.split_ws (String c s)) = [p])
        as [p Hp].
      { specialize (Hname (String c s) eq_refl).
        destruct (PyStr.split_ws (String c s)) as [|a [|b l]].
        - exfalso. apply Hname; [discriminate | reflexivity].
        - eexists; reflexivity.
        - eexists; reflexivity. }
      rewrite (name_arg_pair_tokens _ _ Hp). cbn [rbind].
      now rewrite batch_names_closed.
  - cbn [rbind]. now rewrite batch_names_closed.
Qed.


(** Whatever [--type] is, every form [main] posts has the filter [ALL]. *)
Lemma main_posts_filter_all (args : Namespace) (w : world float) :
  args_file args = None ->
  exists evs,
    trace (snd (main args w)) = (trace w ++ evs)%list /\
    Forall (fun f => filter f = ALL) (forms_sent evs).
Proof.
  intros Hfile.
  destruct (resolve_names args) as [names|e] eqn:Hres.
  - destruct (main_online_forms args names w Hfile Hres)
      as (evs & done & rest & Tr & _ & F & _).
    exists evs. split; [exact Tr|]. rewrite F.
    apply Forall_forall. intros f Hf. apply in_map_iff in Hf.
    destruct Hf as (n & <- & _). reflexivity.
  - rewrite (main_resolve_raises _ _ _ Hfile Hres). exists [].
    cbn [snd]. rewrite app_nil_r. split; [reflexivity | constructor].
Qed.

(* ================================================================ *)
(** ** The output format *)

Lemma written_app (a b : list (event float)) :
  written (a ++ b) = written a ++ written b.
Proof.
  induction a as [|ev a IH]; [reflexivity|].
  destruct ev; simpl; rewrite IH; auto using append_assoc.
Qed.

Lemma written_records (info : list ContactInfo) :
  written (flat_map record_events info) = records_text info.
Proof.
  induction info as [|i info IH]; [reflexivity|].
  cbn [flat_map record_events app written records_text]. now rewrite IH.
Qed.


(* ================================================================ *)
(** ** Diagnostics *)

Lemma last_char_snoc (s : string) :
  forall c, exists body, String c s = body ++ String (last_char c s) "".
Proof.
  induction s as [|a s IH]; intros c.
  - now exists "".
  - destruct (IH a) as [body H]. exists (String c body).
    cbn [last_char append]. now rewrite <- H.
Qed.

Lemma snoc_inj (b1 b2 : string) (x y : ascii) :
  b1 ++ String x "" = b2 ++ String y "" -> x = y.
Proof.
  revert b2; induction b1 as [|c b1 IH]; intros [|c' b2]; simpl; intros [=].
  - assumption.
  - destruct b2; discriminate.
  - destruct b1; discriminate.
  - now apply (IH b2).
Qed.

(** X1: [err] writes one text to the error channel and nothing else: the
    message as it is when it is empty or already ends with a newline, and
    the message followed by one newline otherwise; whatever is written for
    a non-empty message ends with a newline. *)
Theorem err_message_ends_with_newline (msg : string) (w : world float) :
  exists s,
    err msg w = (Ok tt, emit (EvStderr s) w) /\
    (msg = "" -> s = "") /\
    ((exists body, msg = body ++ LF) -> s = msg) /\
    (msg <> "" -> (forall body, msg <> body ++ LF) -> s = msg ++ LF) /\
    (msg <> "" -> exists body, s = body ++ LF).
Proof.
  exists (err_message msg). split; [reflexivity|].
  destruct msg as [|c m]; cbn [err_message].
  - split; [reflexivity|]. split; [reflexivity|].
    split; intros H; exfalso; now apply H.
  - destruct (last_char_snoc m c) as [body Hb].
    split; [discriminate|].
    destruct (Ascii.eqb_spec (last_char c m) (ascii_of_nat 10)) as [E|E].
    + split; [reflexivity|]. split.
      * intros _ H. exfalso. apply (H body). rewrite Hb, E. reflexivity.
      * intros _. exists body. rewrite Hb, E. reflexivity.
    + split; [|split].
      * intros [body' H]. exfalso. apply E. rewrite Hb in H.
        now apply snoc_inj in H.
      * reflexivity.
      * intros _. now exists (String c m).
Qed.

(* ================================================================ *)
(** ** Offline mode *)


(* ================================================================ *)
(** ** The page parser: order and names *)

Lemma subseq_length {A : Type} (l1 l2 : list A) :
  subseq l1 l2 -> List.length l1 <= List.length l2.
Proof. induction 1; simpl; lia. Qed.

Lemma parse_emails_loop_subseq (records : list node) :
  forall info out,
    parse_emails_loop info records = Ok out ->
    exists kept cs,
      out = (info ++ cs)%list /\ subseq kept records /\
      Forall2 emitted_by kept cs.
Proof.
  induction records as [|r records IH]; intros info out; simpl.
  - intros [= <-]. exists [], []. rewrite app_nil_r.
    repeat split; constructor.
  - unfold rbind.
    destruct (parse_emails_row info r) as [info'|] eqn:R; [|discriminate].
    intros L. destruct (IH _ _ L) as (kept & cs & -> & Hs & Hf).
    destruct (parse_emails_row_Ok _ _ _ R) as [-> | (c & Hem & ->)].
    + exists kept, cs. repeat split; auto. now constructor.
    + exists (r :: kept), (c :: cs). rewrite <- app_assoc.
      repeat split; auto; now constructor.
Qed.

(** X3: the records [parse_emails] returns are those of some of the rows of
    the page, one record for each of these rows, in the order of the rows:
    nothing is sorted, merged or repeated, and there are at most as many
    records as rows. *)
Theorem parse_emails_keeps_row_order (response : string)
        (info : list ContactInfo) :
  parse_emails response = Ok info ->
  exists rows kept,
    Soup.find_all "tr" "record-data" (BeautifulSoup response) = Ok rows /\
    subseq kept rows /\
    Forall2 emitted_by kept info /\
    List.length info <= List.length rows.
Proof.
  unfold parse_emails, parse_emails_soup, rbind.
  destruct (Soup.find_all "tr" "record-data" (BeautifulSoup response))
    as [rows|] eqn:F; [|discriminate].
  intros L. destruct (parse_emails_loop_subseq _ _ _ L) as (kept & cs & -> & Hs & Hf).
  exists rows, kept. cbn [app]. repeat split; auto.
  rewrite <- (Forall2_length Hf). now apply subseq_length.
Qed.

Lemma parse_record_name_str (record : node) (s : string) :
  parse_record_name record = Ok (Some (NameStr s)) ->
  exists text, s = PyStr.strip text.
Proof.
  unfold parse_record_name, rbind.
  destruct (Soup.find_all "th" "record-data-name" record)
    as [[|cell rest]|]; try discriminate.
  destruct (Soup.find_all "span" "results-name" cell)
    as [[|span rest']|]; try discriminate.
  destruct (Soup.contents span) as [[|n more]|]; try discriminate.
  destruct n as [text|nm cl cs]; cbn [node_strip].
  - intros [= <-]. now exists text.
  - destruct (Soup.getattr_child "strip" cs); discriminate.
Qed.

(** X4: A name that [parse_emails] returns as a text neither starts nor ends
    with whitespace. *)
Theorem emitted_names_are_trimmed (response : string)
        (info : list ContactInfo) (c : ContactInfo) (s : string) :
  parse_emails response = Ok info ->
  In c info ->
  name c = Some (NameStr s) ->
  PyStr.starts_with_space s = false /\ PyStr.ends_with_space s = false.
Proof.
  intros L Hc Hn.
  destruct (parse_emails_emitted _ _ L c Hc)
    as (rows & r & _ & _ & e & p & _ & _ & _ & N & _).
  rewrite Hn in N. destruct (parse_record_name_str _ _ N) as [text ->].
  destruct (strip_trims text) as (l & r' & _ & _ & _ & H1 & H2). now split.
Qed.

(* ================================================================ *)
(** ** The driver: runs without a name *)

Lemma blank_lines_no_pair (lines : list string) :
  Forall (fun line => PyStr.split_ws line = []) lines ->
  flat_map (fun line => tokens_pair (PyStr.split_ws line)) lines = [].
Proof.
  induction 1 as [|line lines H _ IH]; [reflexivity|].
  cbn [flat_map]. now rewrite H, IH.
Qed.

(** X5: in online mode, when [--name] is absent or empty and the batch file is
    absent or is read to its end and holds no token, [main] posts
    nothing, sleeps never and writes nothing to the output: when the rate
    limit converts to a float it returns after writing one diagnostic
    line to the error channel, and otherwise it raises [OverflowError]
    before the diagnostic. *)
Theorem no_name_no_query (args : Namespace) (w : world float) :
  args_file args = None ->
  args_name args = None \/ args_name args = Some "" ->
  args_batch args = None \/
  (exists lines, args_batch args = Some (lines, None) /\
                 Forall (fun line => PyStr.split_ws line = []) lines) ->
  resolve_names args = Ok [] /\
  posts (snd (main args w)) = posts w /\
  (float_of_int (args_ratelimit args) <> None ->
   fst (main args w) = Ok tt /\
   trace (snd (main args w))
   = (trace w ++
      [EvStderr ("provide name with '-b' or '-n' option. See help for details"
                 ++ LF)])%list) /\
  (float_of_int (args_ratelimit args) = None ->
   fst (main args w) = Raise OverflowError /\
   trace (snd (main args w)) = trace w).
Proof.
  intros Hfile Hname Hbatch.
  assert (Hres : resolve_names args = Ok []).
  { unfold resolve_names.
    assert (Hn : match args_name args with
                 | Some s => if PyStr.is_empty s then Ok []
                             else rbind (name_arg_pair s) (fun p => Ok [p])
                 | None => Ok []
                 end = Ok []).
    { destruct Hname as [-> | ->]; reflexivity. }
    rewrite Hn. cbn [rbind].
    destruct Hbatch as [-> | (lines & -> & Hl)]; [reflexivity|].
    rewrite batch_names_closed, blank_lines_no_pair by assumption.
    reflexivity. }
  split; [exact Hres|].
  destruct (float_of_int (args_ratelimit args)) as [r|] eqn:Fr.
  - assert (M : main args w
                = (Ok tt,
                   mkWorld (next_reading w) (tl (readings w)) (posts w)
                     (trace w ++
                      [EvStderr
                         ("provide name with '-b' or '-n' option. See help for details"
                          ++ LF)])%list)).
    { unfold main. rewrite Hfile. unfold bind at 1. unfold lift. rewrite Hres.
      unfold bind at 1. rewrite time_time_spec. unfold bind at 1.
      unfold int_as_float. rewrite Fr. reflexivity. }
    rewrite M. split; [reflexivity|]. split.
    + intros _. split; reflexivity.
    + discriminate.
  - assert (M : main args w
                = (Raise OverflowError,
                   mkWorld (next_reading w) (tl (readings w))
                           (posts w) (trace w))).
    { unfold main. rewrite Hfile. unfold bind at 1. unfold lift. rewrite Hres.
      unfold bind at 1. rewrite time_time_spec. unfold bind at 1.
      unfold int_as_float. rewrite Fr. reflexivity. }
    rewrite M. split; [reflexivity|]. split.
    + intros H. exfalso. now apply H.
    + intros _. split; reflexivity.
Qed.

Lemma resolve_names_raises (args : Namespace) (e : exn) :
  resolve_names args = Raise e ->
  (e = IndexError /\
   exists s, args_name args = Some s /\ s <> "" /\ PyStr.split_ws s = []) \/
  (exists lines, args_batch args = Some (lines, Some e)).
Proof.
  assert (B : forall names,
             match args_batch args with
             | Some (lines, stop) =>
                 rbind (batch_names names lines)
                       (fun names => match stop with
                                     | Some e => Raise e
                                     | None => Ok names
                                     end)
             | None => Ok names
             end = Raise e ->
             exists lines, args_batch args = Some (lines, Some e)).
  { intros names. destruct (args_batch args) as [[lines [x|]]|];
      try rewrite batch_names_closed; cbn [rbind]; try discriminate.
    intros [= ->]. now exists lines. }
  unfold resolve_names.
  destruct (args_name args) as [s|].
  - destruct s as [|c s]; cbn [PyStr.is_empty].
    + cbn [rbind]. intros H. right. exact (B _ H).
    + destruct (PyStr.split_ws (String c s)) as [|a l] eqn:Tk.
      * unfold name_arg_pair. rewrite Tk. cbn. intros [= <-]. left.
        split; [reflexivity|]. exists (String c s).
        repeat split; auto. discriminate.
      * assert (exists p, tokens_pair (PyStr.split_ws (String c s)) = [p])
          as [p Hp].
        { rewrite Tk. destruct l; eexists; reflexivity. }
        rewrite (name_arg_pair_tokens _ _ Hp). cbn [rbind].
        intros H. right. exact (B _ H).
  - cbn [rbind]. intros H. right. exact (B _ H).
Qed.

(** X6: A [--name] that is not empty but holds no token (whitespace only)
    makes [main] raise [IndexError] before it does anything, whatever the
    batch file holds.  Resolving the names fails in this way or because
    the reading of the batch file raises, and in no other way; in the
    second case too [main] raises the exception before it does
    anything. *)
Theorem blank_name_raises_IndexError (args : Namespace) (w : world float) :
  args_file args = None ->
  ((exists s, args_name args = Some s /\ s <> "" /\ PyStr.split_ws s = []) ->
   main args w = (Raise IndexError, w)) /\
  (forall e,
      resolve_names args = Raise e ->
      (e = IndexError /\
       exists s, args_name args = Some s /\ s <> "" /\ PyStr.split_ws s = []) \/
      (exists lines, args_batch args = Some (lines, Some e))) /\
  (forall lines e,
      args_batch args = Some (lines, Some e) ->
      (forall s, args_name args = Some s -> s <> "" -> PyStr.split_ws s <> []) ->
      main args w = (Raise e, w)).
Proof.
  intros Hfile. split; [|split].
  - intros (s & Hn & Hs & Ht). apply main_resolve_raises; [assumption|].
    unfold resolve_names, name_arg_pair. rewrite Hn, Ht.
    destruct s; [congruence | reflexivity].
  - intros e. apply resolve_names_raises.
  - intros lines e Hb Hname. apply main_resolve_raises; [assumption|].
    now apply (resolve_names_batch_raises args lines e).
Qed.

(* ================================================================ *)
(** ** The driver: what a run posts and returns *)

Lemma all_answered_run (names : list (string * string)) :
  forall n,
    all_answered n names ->
    run_result n names = Ok tt /\ run_queried n names = names.
Proof.
  induction names as [|name names IH]; intros n; [now split|].
  cbn [all_answered run_result run_queried]. unfold query_outcome.
  intros [(resp & info & -> & -> & ->) H]. cbn.
  destruct (IH _ H) as [-> ->]. now split.
Qed.

Lemma first_failure_run (before after : list (string * string))
      (name : string * string) (e : exn) :
  forall n,
    all_answered n before ->
    query_outcome (n + List.length before) name = Raise e ->
    run_result n (before ++ name :: after) = Raise e /\
    run_queried n (before ++ name :: after) = (before ++ [name])%list.
Proof.
  induction before as [|b before IH]; intros n.
  - cbn [all_answered List.length app run_result run_queried].
    rewrite Nat.add_0_r. intros _ ->. now split.
  - cbn [all_answered List.length app run_result run_queried].
    intros [(resp & info & Hs & Hc & Hp) H] Hq.
    assert (Hb : query_outcome n b = Ok info).
    { unfold query_outcome. rewrite Hs, Hc. exact Hp. }
    rewrite Hb. rewrite <- Nat.add_succ_comm in Hq.
    destruct (IH _ H Hq) as [-> ->]. now split.
Qed.

(** The queries before the first one that fails are those that can
    succeed. *)
Lemma run_ok_prefix (before after : list (string * string))
      (name : string * string) (e : exn) :
  forall n done rest,
    (before ++ name :: after = done ++ rest)%list ->
    query_outcome (n + List.length before) name = Raise e ->
    run_result n done = Ok tt ->
    exists rest', before = (done ++ rest')%list.
Proof.
  induction before as [|b before IH]; intros n done rest Hn Hq Hd.
  - destruct done as [|d done]; [now exists []|].
    cbn [app] in Hn. injection Hn as <- _.
    cbn [List.length] in Hq. rewrite Nat.add_0_r in Hq.
    cbn [run_result] in Hd. rewrite Hq in Hd. discriminate.
  - destruct done as [|d done]; [now exists (b :: before)|].
    cbn [app] in Hn. injection Hn as <- Hn.
    cbn [run_result] in Hd.
    destruct (query_outcome n b); [|discriminate].
    cbn [List.length] in Hq. rewrite <- Nat.add_succ_comm in Hq.
    destruct (IH (S n) done rest Hn Hq Hd) as [rest' ->].
    now exists rest'.
Qed.



(* ================================================================ *)
(** ** How the extractors fail *)

(** X11: how the four extractors fail on a row (an element).  The major and
    the org extractors never raise.  The email extractor raises exactly
    when the first email cell starts with a text node, which has no
    [contents]: [AttributeError].  The name extractor raises exactly when
    the first name span of the first name cell starts with an element
    that has no descendant named [strip]: [TypeError]. *)
Theorem extractor_failures (nm : string) (cl : list string) (cs : list node)
        (e : exn) :
  (exists v, parse_record_major (Tag nm cl cs) = Ok v) /\
  (exists v, parse_record_org (Tag nm cl cs) = Ok v) /\
  (parse_record_email (Tag nm cl cs) = Raise e <->
   e = AttributeError /\
   exists cell rest text more,
     Soup.find_all "td" "record-data-email" (Tag nm cl cs) = Ok (cell :: rest) /\
     Soup.contents cell = Ok (NavigableString text :: more)) /\
  (parse_record_name (Tag nm cl cs) = Raise e <->
   e = TypeError /\
   exists cell rest span rest' nm' cl' cs' more,
     Soup.find_all "th" "record-data-name" (Tag nm cl cs) = Ok (cell :: rest) /\
     Soup.find_all "span" "results-name" cell = Ok (span :: rest') /\
     Soup.contents span = Ok (Tag nm' cl' cs' :: more) /\
     Soup.getattr_child "strip" cs' = None).
Proof.
  split; [|split; [|split]].
  - unfold parse_record_major, rbind.
    destruct (Soup.find_all "td" "record-data-major" (Tag nm cl cs))
      as [[|cell rest]|x] eqn:F; [eauto| |discriminate].
    destruct (find_all_first_is_tag _ _ _ _ _ F) as (n1 & c1 & k1 & ->).
    cbn [Soup.contents]. destruct k1; eauto.
  - unfold parse_record_org, rbind.
    destruct (Soup.find_all "td" "record-data-org" (Tag nm cl cs))
      as [[|cell rest]|x] eqn:F; [eauto| |discriminate].
    destruct (find_all_first_is_tag _ _ _ _ _ F) as (n1 & c1 & k1 & ->).
    cbn [Soup.contents]. destruct k1; eauto.
  - unfold parse_record_email, rbind.
    destruct (Soup.find_all "td" "record-data-email" (Tag nm cl cs))
      as [[|cell rest]|x] eqn:F; [| |discriminate].
    + split; [discriminate|]. intros (_ & c & r & t & m & [=] & _).
    + destruct (find_all_first_is_tag _ _ _ _ _ F) as (n1 & c1 & k1 & ->).
      cbn [Soup.contents]. destruct k1 as [|link more].
      * split; [discriminate|].
        intros (_ & c & r & t & m & [= <- <-] & C). discriminate C.
      * destruct link as [text|n2 c2 k2]; cbn [Soup.contents].
        -- split.
           ++ intros [= <-]. split; [reflexivity|].
              now exists (Tag n1 c1 (NavigableString text :: more)), rest, text, more.
           ++ intros [-> _]. reflexivity.
        -- split.
           ++ destruct k2; discriminate.
           ++ intros (_ & c & r & t & m & [= <- <-] & C). discriminate C.
  - unfold parse_record_name, rbind.
    destruct (Soup.find_all "th" "record-data-name" (Tag nm cl cs))
      as [[|cell rest]|x] eqn:F; [| |discriminate].
    + split; [discriminate|].
      intros (_ & c & r & sp & r' & n' & c' & k' & m & [=] & _).
    + destruct (Soup.find_all "span" "results-name" cell)
        as [[|span rest']|x] eqn:G.
      * split; [discriminate|].
        intros (_ & c & r & sp & r' & n' & c' & k' & m & [= <- <-] & G' & _).
        rewrite G in G'. discriminate.
      * destruct (find_all_first_is_tag _ _ _ _ _ G) as (n1 & c1 & k1 & ->).
        cbn [Soup.contents]. destruct k1 as [|child more].
        -- split; [discriminate|].
           intros (_ & c & r & sp & r' & n' & c' & k' & m & [= <- <-] & G' & C & _).
           rewrite G in G'. injection G' as <- <-. discriminate.
        -- destruct child as [text|n2 c2 k2]; cbn [node_strip].
           ++ split; [discriminate|].
              intros (_ & c & r & sp & r' & n' & c' & k' & m & [= <- <-] & G' & C & _).
              rewrite G in G'. injection G' as <- <-. discriminate.
           ++ destruct (Soup.getattr_child "strip" k2) eqn:A.
              ** split; [discriminate|].
                 intros (_ & c & r & sp & r' & n' & c' & k' & m & [= <- <-] & G' & C & A').
                 rewrite G in G'. injection G' as <- <-.
                 injection C as <- <- <- <-. rewrite A in A'. discriminate.
              ** split.
                 --- intros [= <-]. split; [reflexivity|].
                     exists cell, rest, (Tag n1 c1 (Tag n2 c2 k2 :: more)), rest',
                            n2, c2, k2, more.
                     repeat split; assumption.
                 --- intros [-> _]. reflexivity.
      * destruct (find_all_first_is_tag _ _ _ _ _ F) as (n1 & c1 & k1 & ->).
        discriminate.
Qed.

(* ================================================================ *)
(** ** The driver: the order of the events, and the names *)


(** X14: unless [--name] is blank or the reading of the batch file raises,
    the resolved names are the pair of [--name], if it has a token,
    followed by one pair for each line of the batch file that has a
    token, in the order of the lines; so there are at most one name more
    than lines. *)
Theorem resolve_names_closed_form (args : Namespace) :
  (forall s, args_name args = Some s -> s <> "" -> PyStr.split_ws s <> []) ->
  (forall lines e, args_batch args <> Some (lines, Some e)) ->
  resolve_names args = Ok (name_part args ++ batch_part args)%list /\
  List.length (name_part args) <= 1 /\
  (forall lines stop, args_batch args = Some (lines, stop) ->
                      List.length (batch_part args) <= List.length lines).
Proof.
  intros Hname Hbatch.
  assert (B : forall names,
             match args_batch args with
             | Some (lines, stop) =>
                 rbind (batch_names names lines)
                       (fun names => match stop with
                                     | Some e => Raise e
                                     | None => Ok names
                                     end)
             | None => Ok names
             end = Ok (names ++ batch_part args)%list).
  { intros names. unfold batch_part.
    destruct (args_batch args) as [[lines [x|]]|].
    - exfalso. now apply (Hbatch lines x).
    - now rewrite batch_names_closed.
    - now rewrite app_nil_r. }
  split; [|split].
  - unfold resolve_names, name_part.
    destruct (args_name args) as [s|].
    + destruct s as [|c s]; cbn [PyStr.is_empty].
      * cbn [rbind]. apply B.
      * assert (exists p, tokens_pair (PyStr.split_ws (String c s)) = [p])
          as [p Hp].
        { specialize (Hname (String c s) eq_refl).
          destruct (PyStr.split_ws (String c s)) as [|a [|b l]].
          - exfalso. apply Hname; [discriminate | reflexivity].
          - eexists; reflexivity.
          - eexists; reflexivity. }
        rewrite (name_arg_pair_tokens _ _ Hp), Hp. cbn [rbind]. apply B.
    + cbn [rbind]. apply B.
  - unfold name_part. destruct (args_name args) as [s|]; [|simpl; lia].
    destruct (PyStr.split_ws s) as [|a [|b l]]; simpl; lia.
  - intros lines stop Hb. unfold batch_part. rewrite Hb. clear Hb.
    induction lines as [|line lines IH]; [simpl; lia|].
    cbn [flat_map]. rewrite length_app. cbn [List.length].
    destruct (PyStr.split_ws line) as [|a [|b l]]; simpl; lia.
Qed.

End Program.

Arguments forms_sent {float} tr.
Arguments written {float} tr.
Arguments untimed {float} tr.
Arguments record_events decode {float} i.
Arguments write_info decode {float} info w.
Arguments err {float} msg w.
Arguments do_request server {float} firstname lastname dot_name category w.
Arguments main BeautifulSoup decode repr server {float} float_of_int fadd fsub
  positive sleep_overflows args w.
Arguments query_step BeautifulSoup decode repr server {float} float_of_int
  fadd fsub positive sleep_overflows ratelimit start_time name w.
Arguments remaining {float} fadd fsub r last_start now.
Arguments turns {float} positive sleep_overflows evs.

(* ================================================================== *)
(** * The program on the sample inputs *)

(** C1: with [--type student --name Doe] the one form [main] posts has the
    filter [all], not [student]: [main] calls [do_request] without the
    category, so the option never reaches the query. *)
Theorem type_option_not_applied :
  args_type args_student_doe = "student" /\
  forms_sent (trace (snd (main page_parser no_markup quoted server_ok
                               b64_of_int PrimFloat.add PrimFloat.sub b64_positive
                               b64_sleep_overflows args_student_doe world0)))
  = [mkForm "all" "" "Doe" ""].
Proof. split; vm_compute; reflexivity. Qed.






(* ================================================================== *)
(** * The theorems at the sample inputs *)

Lemma dotname_is_email_prefix_witness :
  parse_emails page_parser "" = Ok [jane] /\
  In jane [jane] /\
  exists e parts,
    email jane = NavigableString e /\
    PyStr.split e "@" = Ok parts /\
    first parts = Ok (dotname jane) /\
    ((PyStr.contains e "@" = false /\ dotname jane = e) \/
     (exists rest, e = dotname jane ++ "@" ++ rest /\
                   PyStr.contains (dotname jane) "@" = false)).
Proof.
  split; [reflexivity|]. split; [left; reflexivity|].
  apply (dotname_is_email_prefix page_parser "" [jane] jane);
    [reflexivity | left; reflexivity].
Defined.


Lemma do_request_outcomes_witness :
  fst (do_request server_ok "Jane" "Doe" "" "bogus" world0)
  = Raise (InvalidRequest "invalid category") /\
  snd (do_request server_ok "Jane" "Doe" "" "bogus" world0) = world0 /\
  fst (do_request server_404 "Jane" "Doe" "" "student" world0)
  = Raise (RequestFailure "Bad status code: 404") /\
  fst (do_request server_ok "Jane" "Doe" "" "student" world0) = Ok "<html>" /\
  trace (snd (do_request server_ok "Jane" "Doe" "" "student" world0))
  = [EvPost (b64 0 0) (mkForm "student" "Jane" "Doe" "")].
Proof.
  assert (Hbogus : ~ In "bogus" [ALL; STUDENT; EMPLOYEE]).
  { intros [H | [H | [H | []]]]; discriminate. }
  assert (Hstudent : In "student" [ALL; STUDENT; EMPLOYEE]).
  { right; left; reflexivity. }
  destruct (do_request_outcomes server_ok binary64 "Jane" "Doe" "" "bogus" world0
              (mkResponse 200 "")) as (_ & B & _).
  destruct (do_request_outcomes server_404 binary64 "Jane" "Doe" "" "student" world0
              (mkResponse 404 "")) as (_ & _ & _ & D).
  destruct (do_request_outcomes server_ok binary64 "Jane" "Doe" "" "student" world0
              (mkResponse 200 "<html>")) as (_ & _ & C' & D').
  destruct (D Hstudent eq_refl) as (_ & D2 & _).
  destruct (D' Hstudent eq_refl) as (_ & _ & D3).
  split; [reflexivity|]. split; [exact (B Hbogus)|].
  split; [apply D2; discriminate|].
  split; [apply D3; reflexivity|].
  exact (C' Hstudent).
Defined.


Lemma name_tokenization_witness :
  (PyStr.split_ws " Doe " = ["Doe"] /\
   name_arg_pair " Doe " = Ok ("", "Doe")) /\
  (PyStr.split_ws "Ann  Mary Poe" = ["Ann"; "Mary"; "Poe"] /\
   name_arg_pair "Ann  Mary Poe" = Ok ("Ann", "Poe")) /\
  (PyStr.is_token "Doe" = true /\ PyStr.all_space (" " ++ NBSP) = true /\
   name_arg_pair ((" " ++ NBSP) ++ "Doe" ++ " ") = Ok ("", "Doe")) /\
  (PyStr.is_token "Ann" = true /\ PyStr.is_token "Poe" = true /\
   PyStr.all_space IDSP = true /\
   name_arg_pair ("Ann" ++ IDSP ++ "Poe") = Ok ("Ann", "Poe") /\
   name_arg_pair ("Ann" ++ IDSP ++ "Mary J." ++ "  " ++ "Poe")
   = Ok ("Ann", "Poe")) /\
  batch_names [("Jane", "Doe")] [" Doe " ++ LF; "Ann  Mary Poe"]
  = Ok [("Jane", "Doe"); ("", "Doe"); ("Ann", "Poe")] /\
  batch_names [("Jane", "Doe")] [" Doe " ++ LF; "Ann  Mary Poe"]
  = batch_names [("Jane", "Doe"); ("", "Doe")] ["Ann  Mary Poe"] /\
  batch_names [] ["Ann  Mary Poe"; "x"] = batch_names [("Ann", "Poe")] ["x"] /\
  (PyStr.all_space ("  " ++ LF) = true /\
   batch_names [("Jane", "Doe")] ["  " ++ LF; "Roe"]
   = batch_names [("Jane", "Doe")] ["Roe"]).
Proof.
  destruct (name_tokenization " Doe " "Doe" "Ann" "Poe" [] (" " ++ NBSP) " "
              IDSP "  " "Poe" "Mary J." [("Jane", "Doe")] (" Doe " ++ LF)
              ["Ann  Mary Poe"] [" Doe " ++ LF; "Ann  Mary Poe"])
    as (A1 & _ & _ & _ & _ & _ & _ & A6 & A7 & A8 & A9 & _).
  destruct (name_tokenization "Ann  Mary Poe" "x" "Ann" "Mary" ["Poe"] "" "" ""
              "" "" "" [] "Ann  Mary Poe" ["x"] [])
    as (_ & B2 & _ & _ & _ & _ & _ & _ & _ & _ & _ & B10 & _).
  destruct (name_tokenization "" "" "" "" [] "" "" "" "" "" ""
              [("Jane", "Doe")] ("  " ++ LF) ["Roe"] [])
    as (_ & _ & _ & _ & _ & _ & _ & _ & _ & _ & _ & _ & C11 & _).
  destruct (A7 eq_refl eq_refl eq_refl) as [A7a A7b]; [discriminate|].
  split; [split; [reflexivity | exact (A1 eq_refl)]|].
  split; [split; [reflexivity | exact (B2 eq_refl)]|].
  split; [split; [reflexivity | split; [reflexivity|]];
          exact (A6 eq_refl eq_refl eq_refl)|].
  split.
  { split; [reflexivity|]. split; [reflexivity|]. split; [reflexivity|].
    split; [exact A7a|]. apply A7b; [reflexivity | discriminate]. }
  split; [exact A8|].
  split; [exact (proj2 (A9 eq_refl))|].
  split; [exact (proj2 (B10 eq_refl))|].
  split; [reflexivity | exact (proj2 (C11 eq_refl))].
Defined.




(* ================================================================== *)
(** * Further properties at the sample inputs *)

Lemma err_message_ends_with_newline_witness :
  "no record" <> "" /\
  exists s,
    err "no record" world0 = (Ok tt, emit (EvStderr s) world0) /\
    exists body, s = body ++ LF.
Proof.
  assert (H : "no record" <> "") by discriminate.
  split; [exact H|].
  destruct (err_message_ends_with_newline binary64 "no record" world0)
    as (s & E & _ & _ & _ & N).
  exists s. split; [exact E | exact (N H)].
Defined.


Lemma parse_emails_keeps_row_order_witness :
  parse_emails page_parser "" = Ok [jane] /\
  exists rows kept,
    Soup.find_all "tr" "record-data" (page_parser "") = Ok rows /\
    subseq kept rows /\
    Forall2 emitted_by kept [jane] /\
    List.length [jane] <= List.length rows.
Proof.
  split; [reflexivity|].
  exact (parse_emails_keeps_row_order page_parser "" [jane] eq_refl).
Defined.

Lemma emitted_names_are_trimmed_witness :
  parse_emails page_parser "" = Ok [jane] /\
  name jane = Some (NameStr "Jane Doe") /\
  PyStr.starts_with_space "Jane Doe" = false /\
  PyStr.ends_with_space "Jane Doe" = false.
Proof.
  split; [reflexivity|]. split; [reflexivity|].
  exact (emitted_names_are_trimmed page_parser "" [jane] jane "Jane Doe"
           eq_refl (or_introl eq_refl) eq_refl).
Defined.

Lemma no_name_no_query_witness :
  args_name args_no_name = None /\
  Forall (fun line => PyStr.split_ws line = []) ["  " ++ LF; LF] /\
  b64_of_int (args_ratelimit args_no_name) <> None /\
  fst (main page_parser no_markup quoted server_ok
            b64_of_int PrimFloat.add PrimFloat.sub b64_positive b64_sleep_overflows
            args_no_name world0) = Ok tt /\
  posts (snd (main page_parser no_markup quoted server_ok
                   b64_of_int PrimFloat.add PrimFloat.sub b64_positive b64_sleep_overflows
                   args_no_name world0))
  = 0 /\
  trace (snd (main page_parser no_markup quoted server_ok
                   b64_of_int PrimFloat.add PrimFloat.sub b64_positive b64_sleep_overflows
                   args_no_name world0))
  = [EvStderr ("provide name with '-b' or '-n' option. See help for details"
               ++ LF)] /\
  b64_of_int (args_ratelimit args_huge_ratelimit) = None /\
  fst (main page_parser no_markup quoted server_ok
            b64_of_int PrimFloat.add PrimFloat.sub b64_positive b64_sleep_overflows
            args_huge_ratelimit world0) = Raise OverflowError /\
  trace (snd (main page_parser no_markup quoted server_ok
                   b64_of_int PrimFloat.add PrimFloat.sub b64_positive b64_sleep_overflows
                   args_huge_ratelimit world0)) = [].
Proof.
  assert (H : Forall (fun line => PyStr.split_ws line = []) ["  " ++ LF; LF]).
  { repeat constructor. }
  assert (Hr : b64_of_int (args_ratelimit args_no_name) <> None)
    by discriminate.
  assert (Hh : b64_of_int (args_ratelimit args_huge_ratelimit) = None)
    by (vm_compute; reflexivity).
  split; [reflexivity|]. split; [exact H|]. split; [exact Hr|].
  destruct (no_name_no_query page_parser no_markup quoted server_ok
              binary64 b64_of_int PrimFloat.add PrimFloat.sub b64_positive b64_sleep_overflows
              args_no_name world0 eq_refl (or_introl eq_refl)
              (or_intror (ex_intro _ ["  " ++ LF; LF] (conj eq_refl H))))
    as (_ & P & A & _).
  destruct (no_name_no_query page_parser no_markup quoted server_ok
              binary64 b64_of_int PrimFloat.add PrimFloat.sub b64_positive b64_sleep_overflows
              args_huge_ratelimit world0 eq_refl (or_introl eq_refl)
              (or_introl eq_refl))
    as (_ & _ & _ & B).
  destruct (A Hr) as [R Tr]. destruct (B Hh) as [R' Tr'].
  split; [exact R|]. split; [exact P|]. split; [exact Tr|].
  split; [exact Hh|]. split; [exact R' | exact Tr'].
Defined.

Lemma blank_name_raises_IndexError_witness :
  args_name args_blank_name = Some "  " /\
  PyStr.split_ws "  " = [] /\
  main page_parser no_markup quoted server_ok
       b64_of_int PrimFloat.add PrimFloat.sub b64_positive b64_sleep_overflows
       args_blank_name world0
  = (Raise IndexError, world0) /\
  args_batch args_bad_batch = Some (["Roe" ++ LF], Some UnicodeDecodeError) /\
  main page_parser no_markup quoted server_ok
       b64_of_int PrimFloat.add PrimFloat.sub b64_positive b64_sleep_overflows
       args_bad_batch world0
  = (Raise UnicodeDecodeError, world0).
Proof.
  split; [reflexivity|]. split; [reflexivity|].
  destruct (blank_name_raises_IndexError page_parser no_markup quoted server_ok
              binary64 b64_of_int PrimFloat.add PrimFloat.sub b64_positive b64_sleep_overflows
              args_blank_name world0 eq_refl) as [H _].
  destruct (blank_name_raises_IndexError page_parser no_markup quoted server_ok
              binary64 b64_of_int PrimFloat.add PrimFloat.sub b64_positive b64_sleep_overflows
              args_bad_batch world0 eq_refl) as (_ & _ & H').
  split.
  { apply H. exists "  ".
    split; [reflexivity|]. split; [discriminate | reflexivity]. }
  split; [reflexivity|].
  apply (H' ["Roe" ++ LF] UnicodeDecodeError eq_refl).
  intros s [= <-] _. discriminate.
Defined.



Lemma extractor_failures_witness :
  parse_record_email row_with_text_email = Raise AttributeError /\
  (exists cell rest text more,
      Soup.find_all "td" "record-data-email" row_with_text_email
      = Ok (cell :: rest) /\
      Soup.contents cell = Ok (NavigableString text :: more)) /\
  (exists v, parse_record_major row_with_text_email = Ok v) /\
  (exists v, parse_record_org row_with_text_email = Ok v).
Proof.
  destruct (extractor_failures "tr" ["record-data"]
              [Tag "td" ["record-data-email"]
                   [NavigableString "jdoe@example.edu"]] AttributeError)
    as (M & O & [E _] & _).
  split; [reflexivity|]. split; [exact (proj2 (E eq_refl))|].
  split; [exact M | exact O].
Defined.


Lemma resolve_names_closed_form_witness :
  PyStr.split_ws "Jane Doe" <> [] /\
  resolve_names args_name_and_batch
  = Ok [("Jane", "Doe"); ("", "Roe"); ("Ann", "Poe")] /\
  List.length (batch_part args_name_and_batch) <= 3.
Proof.
  assert (H : forall s, args_name args_name_and_batch = Some s -> s <> "" ->
                        PyStr.split_ws s <> []).
  { intros s [= <-] _. discriminate. }
  assert (H' : forall lines e,
             args_batch args_name_and_batch <> Some (lines, Some e)).
  { intros lines e. discriminate. }
  destruct (resolve_names_closed_form args_name_and_batch H H') as (R & _ & B).
  split; [discriminate|]. split; [exact R|]. exact (B _ _ eq_refl).
Defined.
